(** * Fixed-time traffic light controller (Enviroment/fixed_timer.py)

    A shallow embedding of the controller script and the properties of
    its phase schedule, its state validator and its control loop.

    Python integers are [Z]; [len] of a string is [Z.of_nat] of its
    length (the signal states and light ids are ASCII, one byte per
    character).  The [patterns] dictionaries are only ever queried
    ([in], indexing) and are finite maps; [TRAFFIC_LIGHTS] is also
    iterated over, so it is kept as an association list in insertion
    order.  Calls into the [traci] module go through an interface whose
    implementation (the simulator) is a parameter.  [print] calls have
    no influence on control flow and are left out. *)

From Stdlib Require Import ZArith Ascii String List Lia Bool Sorted Permutation.
From stdpp Require Import base option list gmap strings.

Local Open Scope string_scope.
Local Open Scope Z_scope.
Local Open Scope list_scope.

(** ** Data model *)

(** A segment of a pattern: [(state, duration)]. *)
Definition Segment : Type := string * Z.

(** One entry of [PHASES]: a dictionary with the keys ["duration"],
    ["patterns"] and ["name"]. *)
Record Phase : Type := mkPhase {
  duration : Z;
  patterns : gmap string (list Segment);
  name : string
}.

(** [len(state)] *)
Definition len (s : string) : Z := Z.of_nat (String.length s).

(** [d.get(key, default)] on a dictionary kept in insertion order. *)
Fixpoint dict_get {A : Type} (d : list (string * A)) (key : string) (default : A) : A :=
  match d with
  | [] => default
  | (k, v) :: rest => if String.eqb k key then v else dict_get rest key default
  end.

(** [key in d] *)
Definition dict_mem {A : Type} (d : list (string * A)) (key : string) : bool :=
  existsb (fun kv => String.eqb (fst kv) key) d.

(** [d.keys()] *)
Definition dict_keys {A : Type} (d : list (string * A)) : list string := map fst d.

(** [sum] of the durations of a pattern. *)
Definition pattern_total (pattern : list Segment) : Z :=
  fold_right (fun seg acc => snd seg + acc) 0 pattern.

(** ** Configuration constants *)

Definition SUMO_CONFIG : string := "simulation.sumocfg".
Definition USE_GUI : bool := true.
Definition SIMULATION_TIME : Z := 58500.

Definition TRAFFIC_LIGHTS : list (string * Z) :=
  [("T1", 3); ("T2", 2); ("T3", 3); ("T4", 2); ("T5", 1)].

Definition PHASE_1 : gmap string (list Segment) :=
  <["T1" := [("rrr", 15); ("ggg", 40); ("yyy", 5)]]>
  (<["T2" := [("rr", 60)]]>
  (<["T3" := [("rrr", 60)]]>
  (<["T4" := [("gg", 55); ("yy", 5)]]>
  (<["T5" := [("g", 10); ("r", 15); ("g", 25); ("y", 5)]]> ∅)))).

Definition PHASE_2 : gmap string (list Segment) :=
  <["T1" := [("rrr", 15); ("ggg", 40); ("yyy", 5)]]>
  (<["T2" := [("gg", 55); ("yy", 5)]]>
  (<["T3" := [("rrr", 60)]]>
  (<["T4" := [("rr", 60)]]>
  (<["T5" := [("g", 10); ("r", 15); ("g", 25); ("y", 5)]]> ∅)))).

Definition PHASE_3 : gmap string (list Segment) :=
  <["T1" := [("rrr", 30); ("ggg", 10); ("yyy", 5); ("rrr", 15)]]>
  (<["T2" := [("rr", 60)]]>
  (<["T3" := [("ggg", 55); ("yyy", 5)]]>
  (<["T4" := [("rr", 60)]]>
  (<["T5" := [("g", 10); ("r", 15); ("g", 25); ("y", 5)]]> ∅)))).

Definition PHASES : list Phase :=
  [ mkPhase 60 PHASE_1 "Phase 1";
    mkPhase 60 PHASE_2 "Phase 2";
    mkPhase 60 PHASE_3 "Phase 3" ].

(** ** The state validator *)

(** [validate_state(tl_id, state)], with the length table as a
    parameter; the script reads the global [TRAFFIC_LIGHTS]. *)
Definition validate_state_in (lights : list (string * Z)) (tl_id state : string) : string :=
  let expected_len := dict_get lights tl_id 0 in
  if negb (len state =? expected_len) then
    if expected_len =? 3 then "rrr"
    else if expected_len =? 2 then "rr"
    else "r"
  else state.

Definition validate_state : string -> string -> string :=
  validate_state_in TRAFFIC_LIGHTS.

(** The value of the local [expected_len] of [validate_state]. *)
Definition expected_len (tl_id : string) : Z := dict_get TRAFFIC_LIGHTS tl_id 0.

(** The all-red string of [n] signals. *)
Fixpoint all_red (n : nat) : string :=
  match n with
  | O => EmptyString
  | S k => String "r"%char (all_red k)
  end.

(** ** Walking a pattern *)

(** The inner [for state, duration in pattern] loop, without its
    effects: the state of the first segment for which the running
    [elapsed] is below the duration, [None] when the loop runs off the
    end of the pattern. *)
Fixpoint find_state (pattern : list Segment) (elapsed : Z) : option string :=
  match pattern with
  | [] => None
  | (state, duration) :: rest =>
      if elapsed <? duration then Some state
      else find_state rest (elapsed - duration)
  end.

(** ** Exceptions *)

(** The exception classes the script distinguishes:
    [traci.exceptions.FatalTraCIError], and every other subclass of
    [Exception] (a rejected call, [IndexError], ...). *)
Inductive exn : Type :=
  | FatalTraCIError
  | OtherException.

Inductive outcome (A : Type) : Type :=
  | Ok (a : A)
  | Raise (e : exn).
Arguments Ok {A} a.
Arguments Raise {A} e.

(** ** The simulator interface *)

(** The calls the script makes into [traci], and what came back.  The
    controller keeps a log of them; the log is how properties about
    which calls are made, and in which order, are stated. *)
Inductive call : Type :=
  | Cstart (cmd : list string)
  | CgetIDList
  | CsetProgram (tl_id program : string)
  | CsimulationStep
  | CsetRedYellowGreenState (tl_id state : string)
  | CgetRedYellowGreenState (tl_id : string)
  | CgetMinExpectedNumber
  | Cclose.

Inductive reply : Type :=
  | Rnone
  | Rids (ids : list string)
  | Rstate (state : string)
  | Rnumber (n : Z)
  | Rraised (e : exn).

Definition event : Type := call * reply.

(** The simulator: a state [W] and one transition per entry point.
    Every entry point may raise, and may change the simulator state
    whether it raises or not. *)
Class Traci (W : Type) : Type := {
  traci_start : list string -> W -> outcome unit * W;
  traci_getIDList : W -> outcome (list string) * W;
  traci_setProgram : string -> string -> W -> outcome unit * W;
  traci_simulationStep : W -> outcome unit * W;
  traci_setRedYellowGreenState : string -> string -> W -> outcome unit * W;
  traci_getRedYellowGreenState : string -> W -> outcome string * W;
  traci_getMinExpectedNumber : W -> outcome Z * W;
  traci_close : W -> outcome unit * W
}.

(** Controller-side view of a run: the simulator and the log of calls,
    oldest first. *)
Record St (W : Type) : Type := mkSt {
  world : W;
  log : list event
}.
Arguments mkSt {W} world log.
Arguments world {W} s.
Arguments log {W} s.

(** Computations that call the simulator and may raise. *)
Definition M (W A : Type) : Type := St W -> outcome A * St W.

Definition ret {W A : Type} (a : A) : M W A := fun st => (Ok a, st).

Definition raise {W A : Type} (e : exn) : M W A := fun st => (Raise e, st).

Definition bind {W A B : Type} (m : M W A) (k : A -> M W B) : M W B :=
  fun st =>
    match m st with
    | (Ok a, st') => k a st'
    | (Raise e, st') => (Raise e, st')
    end.

Notation "'let*' x ':=' c 'in' k" := (bind c (fun x => k))
  (at level 10, x name, c at level 100, k at level 200).
Notation "c1 '>>' c2" := (bind c1 (fun _ => c2))
  (at level 60, right associativity).

(** [try: body except Exception: handler] *)
Definition try_except {W A : Type} (body : M W A) (handler : exn -> M W A) : M W A :=
  fun st =>
    match body st with
    | (Ok a, st') => (Ok a, st')
    | (Raise e, st') => handler e st'
    end.

(** [try: body finally: fin].  The [finally] suite always runs; when it
    raises, its exception replaces the outcome of [body]. *)
Definition try_finally {W A : Type} (body : M W A) (fin : M W unit) : M W A :=
  fun st =>
    match body st with
    | (r, st1) =>
        match fin st1 with
        | (Ok _, st2) => (r, st2)
        | (Raise e, st2) => (Raise e, st2)
        end
    end.

(** [for x in l: body(x)] *)
Fixpoint for_each {W A : Type} (l : list A) (body : A -> M W unit) : M W unit :=
  match l with
  | [] => ret tt
  | x :: rest => body x >> for_each rest body
  end.

(** One call into the simulator, entered in the log with its reply. *)
Definition invoke {W A : Type} (c : call) (enc : A -> reply)
    (op : W -> outcome A * W) : M W A :=
  fun st =>
    match op (world st) with
    | (r, w') =>
        (r, mkSt w' (log st ++ [(c, match r with
                                    | Ok a => enc a
                                    | Raise e => Rraised e
                                    end)]))
    end.

(** [l[i]] for a Python list: negative indices count from the end and
    an index out of range raises [IndexError] ([None] here). *)
Definition py_lookup {A : Type} (l : list A) (i : Z) : option A :=
  let n := Z.of_nat (length l) in
  let j := if i <? 0 then i + n else i in
  if (j <? 0) || (n <=? j) then None else l !! Z.to_nat j.

Definition py_index {W A : Type} (l : list A) (i : Z) : M W A :=
  match py_lookup l i with
  | Some x => ret x
  | None => raise OtherException
  end.

(** [a % b] on Python integers: the sign follows the divisor and a zero
    divisor raises [ZeroDivisionError]. *)
Definition py_mod {W : Type} (a b : Z) : M W Z :=
  if b =? 0 then raise OtherException else ret (a mod b).

(** [sorted(l)] on a list of strings. *)
Fixpoint insert_sorted (x : string) (l : list string) : list string :=
  match l with
  | [] => [x]
  | y :: rest => if String.leb x y then x :: l else y :: insert_sorted x rest
  end.

Definition sorted (l : list string) : list string :=
  fold_right insert_sorted [] l.

(** ** The controller *)

(** The local variables of [run_simulation] that the main loop
    updates. *)
Record LoopState : Type := mkLoopState {
  current_phase : Z;
  phase_start_time : Z;
  step : Z
}.

(** The script is embedded over an arbitrary simulator, and with its
    three tables ([TRAFFIC_LIGHTS], [PHASES], [SIMULATION_TIME]) as
    parameters; [run_simulation] below is the instance at the tables of
    the script. *)
Section Controller.
Context {W : Type} `{Traci W}.
Variable lights : list (string * Z).
Variable phases : list Phase.
Variable budget : Z.

Definition start (cmd : list string) : M W unit :=
  invoke (Cstart cmd) (fun _ => Rnone) (traci_start cmd).
Definition getIDList : M W (list string) :=
  invoke CgetIDList Rids traci_getIDList.
Definition setProgram (tl_id program : string) : M W unit :=
  invoke (CsetProgram tl_id program) (fun _ => Rnone) (traci_setProgram tl_id program).
Definition simulationStep : M W unit :=
  invoke CsimulationStep (fun _ => Rnone) traci_simulationStep.
Definition setRedYellowGreenState (tl_id state : string) : M W unit :=
  invoke (CsetRedYellowGreenState tl_id state) (fun _ => Rnone)
         (traci_setRedYellowGreenState tl_id state).
Definition getRedYellowGreenState (tl_id : string) : M W string :=
  invoke (CgetRedYellowGreenState tl_id) Rstate (traci_getRedYellowGreenState tl_id).
Definition getMinExpectedNumber : M W Z :=
  invoke CgetMinExpectedNumber Rnumber traci_getMinExpectedNumber.
Definition close : M W unit :=
  invoke Cclose (fun _ => Rnone) traci_close.

(** [for tl_id in TRAFFIC_LIGHTS.keys()]: collect the lights that the
    network has and take them over from the static program. *)
Fixpoint take_control (keys all_tls existing_tls : list string) : M W (list string) :=
  match keys with
  | [] => ret existing_tls
  | tl_id :: rest =>
      if existsb (String.eqb tl_id) all_tls then
        setProgram tl_id "0" >>
        take_control rest all_tls (existing_tls ++ [tl_id])
      else take_control rest all_tls existing_tls
  end.

(** The loop that sets every light to the first state of its pattern.
    The script has it twice, under "Set initial states" and under
    "Apply new phase". *)
Definition apply_phase (existing_tls : list string) (current_phase_data : Phase) : M W unit :=
  for_each existing_tls (fun tl_id =>
    match patterns current_phase_data !! tl_id with
    | Some pattern =>
        match pattern with
        | (state, _) :: _ =>
            let valid_state := validate_state_in lights tl_id state in
            setRedYellowGreenState tl_id valid_state
        | [] => ret tt
        end
    | None => ret tt
    end).

(** [for state, duration in pattern], with its [break]. *)
Fixpoint walk_pattern (tl_id : string) (pattern : list Segment) (elapsed : Z) : M W unit :=
  match pattern with
  | [] => ret tt
  | (state, duration) :: rest =>
      if elapsed <? duration then
        let valid_state := validate_state_in lights tl_id state in
        let* current_state := getRedYellowGreenState tl_id in
        if negb (String.eqb current_state valid_state) then
          setRedYellowGreenState tl_id valid_state
        else ret tt
      else walk_pattern tl_id rest (elapsed - duration)
  end.

(** "Update each traffic light based on pattern" *)
Definition update_lights (existing_tls : list string) (current_phase_data : Phase)
    (time_in_phase : Z) : M W unit :=
  for_each existing_tls (fun tl_id =>
    match patterns current_phase_data !! tl_id with
    | Some pattern => walk_pattern tl_id pattern time_in_phase
    | None => ret tt
    end).

(** "Status update": reads every light back, errors ignored. *)
Definition status_update (existing_tls : list string) : M W unit :=
  for_each (sorted existing_tls) (fun tl_id =>
    try_except (getRedYellowGreenState tl_id >> ret tt) (fun _ => ret tt)).

(** The body of the [while] loop. *)
Definition loop_body (existing_tls : list string) (ls : LoopState) : M W LoopState :=
  simulationStep >>
  let time_in_phase := step ls - phase_start_time ls in
  let* current_phase_data := py_index phases (current_phase ls) in
  let* switched :=
    if time_in_phase >=? duration current_phase_data then
      let* current_phase' :=
        py_mod (current_phase ls + 1) (Z.of_nat (length phases)) in
      let phase_start_time' := step ls in
      let* current_phase_data' := py_index phases current_phase' in
      apply_phase existing_tls current_phase_data' >>
      ret (current_phase', phase_start_time', current_phase_data')
    else ret (current_phase ls, phase_start_time ls, current_phase_data) in
  let '(current_phase', phase_start_time', current_phase_data') := switched in
  update_lights existing_tls current_phase_data' time_in_phase >>
  (if step ls mod 30 =? 0 then status_update existing_tls else ret tt) >>
  ret (mkLoopState current_phase' phase_start_time' (step ls + 1)).

(** [while step < SIMULATION_TIME and getMinExpectedNumber() > 0].
    [fuel] bounds the number of iterations; [step] grows by one per
    iteration, so [Z.to_nat (budget - step)] is enough
    (see [main_loop_fuel]). *)
Fixpoint main_loop (fuel : nat) (existing_tls : list string) (ls : LoopState)
    : M W LoopState :=
  match fuel with
  | O => ret ls
  | S fuel' =>
      if step ls <? budget then
        let* remaining := getMinExpectedNumber in
        if remaining >? 0 then
          let* ls' := loop_body existing_tls ls in
          main_loop fuel' existing_tls ls'
        else ret ls
      else ret ls
  end.

Definition sumo_cmd : list string :=
  [if USE_GUI then "sumo-gui" else "sumo"; "-c"; SUMO_CONFIG].

(** The suite of the outer [try]. *)
Definition try_suite : M W unit :=
  start sumo_cmd >>
  let* all_tls := getIDList in
  let* existing_tls := take_control (dict_keys lights) all_tls [] in
  match existing_tls with
  | [] => close
  | _ :: _ =>
      let ls := mkLoopState 0 0 0 in
      simulationStep >>
      let* current_phase_data := py_index phases (current_phase ls) in
      apply_phase existing_tls current_phase_data >>
      main_loop (Z.to_nat (budget - step ls)) existing_tls ls >>
      ret tt
  end.

(** [try: ... except FatalTraCIError: ... except Exception: ...
    finally: try: traci.close() except: pass].  Both handlers only
    print. *)
Definition run_simulation_with : M W unit :=
  try_finally
    (try_except try_suite (fun e =>
       match e with
       | FatalTraCIError => ret tt
       | OtherException => ret tt
       end))
    (try_except close (fun _ => ret tt)).

End Controller.

(** [run_simulation()] *)
Definition run_simulation {W : Type} `{Traci W} : M W unit :=
  run_simulation_with TRAFFIC_LIGHTS PHASES SIMULATION_TIME.

(** ** Reading the log *)

(** Number of [simulationStep] calls in a stretch of the log.  The loop
    body starts with one and makes no other, so over the log of the
    main loop this is the number of times the body was entered. *)
Definition is_step (ev : event) : bool :=
  match fst ev with
  | CsimulationStep => true
  | _ => false
  end.

Fixpoint body_runs (tr : list event) : nat :=
  match tr with
  | [] => O
  | ev :: rest => ((if is_step ev then 1 else 0) + body_runs rest)%nat
  end.

(** Whether [getMinExpectedNumber] answered with a number that fails the
    test [> 0] of the loop condition. *)
Definition reported_none_left (tr : list event) : bool :=
  existsb (fun ev => match ev with
                     | (CgetMinExpectedNumber, Rnumber n) => negb (n >? 0)
                     | _ => false
                     end) tr.

(** The states pushed to one light, oldest first. *)
Definition pushed_states (tl_id : string) (tr : list event) : list string :=
  omap (fun ev => match fst ev with
                  | CsetRedYellowGreenState t s => if String.eqb t tl_id then Some s else None
                  | _ => None
                  end) tr.

(** Whether a list holds the same value twice in a row. *)
Fixpoint has_repeat (l : list string) : bool :=
  match l with
  | x :: ((y :: _) as rest) => String.eqb x y || has_repeat rest
  | _ => false
  end.

Definition is_push (ev : event) : bool :=
  match fst ev with
  | CsetRedYellowGreenState _ _ => true
  | _ => false
  end.

(** Every push in the log comes directly after a read of the same light
    that returned another state than the one pushed.  [prev] is the
    event before the stretch. *)
Fixpoint pushes_guarded (prev : option event) (tr : list event) : bool :=
  match tr with
  | [] => true
  | ev :: rest =>
      match fst ev with
      | CsetRedYellowGreenState tl_id state =>
          match prev with
          | Some (CgetRedYellowGreenState tl_id', Rstate current_state) =>
              String.eqb tl_id' tl_id && negb (String.eqb current_state state)
          | _ => false
          end
      | _ => true
      end && pushes_guarded (Some ev) rest
  end.

(** [m] adds a stretch of calls to the log that satisfies [P], whatever
    the state it starts from and whatever its outcome. *)
Definition emits {W A : Type} (m : M W A) (P : list event -> Prop) : Prop :=
  forall st, exists tr, log (snd (m st)) = log st ++ tr /\ P tr.

(** Properties of stretches of the log that hold of the empty stretch
    and of the concatenation of two stretches that have them. *)
Record stretchwise (P : list event -> Prop) : Prop := mkStretchwise {
  stretch_nil : P [];
  stretch_app : forall tr1 tr2, P tr1 -> P tr2 -> P (tr1 ++ tr2)
}.

(** No push and no simulation step: the stretches made of reads. *)
Definition is_quiet (ev : event) : bool := negb (is_push ev) && negb (is_step ev).

(** Guarded pushes and no simulation step. *)
Definition calm (tr : list event) : Prop :=
  pushes_guarded None tr = true /\ body_runs tr = O.

(** What one run of the loop body adds to the log: the simulation
    step, then the pushes of "Apply new phase" (none when the phase
    does not change), then a stretch in which every push is guarded by
    a read. *)
Definition body_stretch (phases : list Phase) (ls : LoopState) (tr : list event) : Prop :=
  exists step_ev tr_apply tr_rest,
    tr = step_ev :: tr_apply ++ tr_rest /\
    is_step step_ev = true /\
    forallb is_push tr_apply = true /\
    calm tr_rest /\
    ((forall current_phase_data,
        py_lookup phases (current_phase ls) = Some current_phase_data ->
        step ls - phase_start_time ls < duration current_phase_data) ->
     tr_apply = []).

(** ** A simulator to run the controller against *)

(** A small stand-in for SUMO: the lights of the network with their
    current states, the number of vehicles still expected (one leaves
    per step), an optional number of steps after which the engine
    crashes, and whether [close] fails. *)
Record Sim : Type := mkSim {
  sim_ids : list string;
  sim_states : gmap string string;
  sim_remaining : Z;
  sim_steps_left : option nat;
  sim_close_fails : bool
}.

Definition sim_step (w : Sim) : outcome unit * Sim :=
  match sim_steps_left w with
  | Some O => (Raise FatalTraCIError, w)
  | Some (S k) =>
      (Ok tt, mkSim (sim_ids w) (sim_states w) (Z.max 0 (sim_remaining w - 1))
                    (Some k) (sim_close_fails w))
  | None =>
      (Ok tt, mkSim (sim_ids w) (sim_states w) (Z.max 0 (sim_remaining w - 1))
                    None (sim_close_fails w))
  end.

Definition sim_set (tl_id state : string) (w : Sim) : outcome unit * Sim :=
  match sim_states w !! tl_id with
  | Some _ =>
      (Ok tt, mkSim (sim_ids w) (<[tl_id := state]> (sim_states w)) (sim_remaining w)
                    (sim_steps_left w) (sim_close_fails w))
  | None => (Raise OtherException, w)
  end.

Definition sim_get (tl_id : string) (w : Sim) : outcome string * Sim :=
  match sim_states w !! tl_id with
  | Some state => (Ok state, w)
  | None => (Raise OtherException, w)
  end.

#[export] Instance Sim_Traci : Traci Sim := {
  traci_start := fun _ w => (Ok tt, w);
  traci_getIDList := fun w => (Ok (sim_ids w), w);
  traci_setProgram := fun _ _ w => (Ok tt, w);
  traci_simulationStep := sim_step;
  traci_setRedYellowGreenState := sim_set;
  traci_getRedYellowGreenState := sim_get;
  traci_getMinExpectedNumber := fun w => (Ok (sim_remaining w), w);
  traci_close := fun w =>
    if sim_close_fails w then (Raise FatalTraCIError, w) else (Ok tt, w)
}.

(** The network of the script: the five lights, all on their static
    program's all-green state. *)
Definition five_lights : gmap string string :=
  <["T1" := "GGG"]> (<["T2" := "GG"]> (<["T3" := "GGG"]>
  (<["T4" := "GG"]> (<["T5" := "G"]> ∅)))).

Definition all_ids : list string := ["T1"; "T2"; "T3"; "T4"; "T5"].

(** 62 vehicles, so that the run covers ticks 0 to 60. *)
Definition short_run : Sim := mkSim all_ids five_lights 62 None false.

(** An engine that crashes at the first step of the main loop. *)
Definition crashing : Sim := mkSim all_ids five_lights 100 (Some 1%nat) false.

(** An engine that is about to crash. *)
Definition crashed : Sim := mkSim all_ids five_lights 100 (Some 0%nat) false.

(** A network without any of the configured lights, and a [close] that
    fails. *)
Definition no_lights : Sim := mkSim [] ∅ 10 None true.

(** A schedule whose phases differ in length, to watch the loop body
    at a phase change: light X is green for the 30 ticks of phase A and
    red for the first 30 of the 60 ticks of phase B. *)
Definition uneven_schedule : list Phase :=
  [ mkPhase 30 (<["X" := [("g", 30)]]> ∅) "A";
    mkPhase 60 (<["X" := [("r", 30); ("g", 30)]]> ∅) "B" ].

Definition one_light : Sim := mkSim ["X"] (<["X" := "g"]> ∅) 100 None false.

(** ** What the controller is expected to call *)

(** The lights of [keys] that the network has, in the order of
    [keys]. *)
Definition present_lights (keys all_tls : list string) : list string :=
  List.filter (fun tl_id => existsb (String.eqb tl_id) all_tls) keys.


(** One read per light. *)
Definition read_calls (tls : list string) : list call :=
  map CgetRedYellowGreenState tls.

(** The push of the validated first state, for every light of
    [existing_tls] that has a non-empty pattern in the phase. *)
Definition first_pushes (lights : list (string * Z)) (existing_tls : list string)
    (current_phase_data : Phase) : list call :=
  omap (fun tl_id =>
          match patterns current_phase_data !! tl_id with
          | Some ((state, _) :: _) =>
              Some (CsetRedYellowGreenState tl_id (validate_state_in lights tl_id state))
          | _ => None
          end) existing_tls.

(** Whether the test "Check for phase change" succeeds in the loop
    body entered with [ls]. *)
Definition phase_changes (phases : list Phase) (ls : LoopState) : bool :=
  match py_lookup phases (current_phase ls) with
  | Some current_phase_data =>
      step ls - phase_start_time ls >=? duration current_phase_data
  | None => false
  end.

(** The value of [current_phase_data] after that test: the next phase
    when the phase changes, the current one otherwise. *)
Definition phase_in_force (phases : list Phase) (ls : LoopState) : option Phase :=
  if phase_changes phases ls then
    py_lookup phases ((current_phase ls + 1) mod Z.of_nat (length phases))
  else py_lookup phases (current_phase ls).

(** The pushes of "Apply new phase" in the loop body entered with
    [ls]: none when the phase does not change. *)
Definition entry_pushes (lights : list (string * Z)) (phases : list Phase)
    (existing_tls : list string) (ls : LoopState) : list call :=
  if phase_changes phases ls then
    match phase_in_force phases ls with
    | Some next_phase_data => first_pushes lights existing_tls next_phase_data
    | None => []
    end
  else [].

(** The resolved, validated state of a light: the state of the segment
    that the walk over its pattern stops at, after [validate_state];
    [None] when the light has no pattern in the phase or the walk ends
    without a match. *)
Definition resolved_state (lights : list (string * Z)) (phase : option Phase)
    (elapsed : Z) (tl_id : string) : option string :=
  match phase with
  | Some current_phase_data =>
      match patterns current_phase_data !! tl_id with
      | Some pattern =>
          option_map (validate_state_in lights tl_id) (find_state pattern elapsed)
      | None => None
      end
  | None => None
  end.

(** Every push in the log pushes the state [target] gives for its
    light, and comes directly after a read of the same light that
    returned another state.  [prev] is the event before the stretch. *)
Fixpoint pushes_resolved (target : string -> option string) (prev : option event)
    (tr : list event) : bool :=
  match tr with
  | [] => true
  | ev :: rest =>
      match fst ev with
      | CsetRedYellowGreenState tl_id state =>
          match prev with
          | Some (CgetRedYellowGreenState tl_id', Rstate current_state) =>
              String.eqb tl_id' tl_id && negb (String.eqb current_state state)
              && match target tl_id with
                 | Some valid_state => String.eqb valid_state state
                 | None => false
                 end
          | _ => false
          end
      | _ => true
      end && pushes_resolved target (Some ev) rest
  end.

(** A call that names a light names one of [TRAFFIC_LIGHTS], and a
    state that is pushed has the length configured for its light. *)
Definition well_targeted (ev : event) : bool :=
  match fst ev with
  | CsetProgram tl_id _ => dict_mem TRAFFIC_LIGHTS tl_id
  | CgetRedYellowGreenState tl_id => dict_mem TRAFFIC_LIGHTS tl_id
  | CsetRedYellowGreenState tl_id state =>
      dict_mem TRAFFIC_LIGHTS tl_id && (len state =? expected_len tl_id)
  | _ => true
  end.

(** No state is pushed before the simulator has made a step.  [seen]
    tells whether a step came before the stretch. *)
Fixpoint step_first (seen : bool) (tr : list event) : bool :=
  match tr with
  | [] => true
  | ev :: rest =>
      (if is_push ev then seen else true) && step_first (seen || is_step ev) rest
  end.

(** A call that raised, other than a read of a light (a read that
    raises inside the status update is caught there) and other than
    [close]. *)
Definition abrupt (ev : event) : bool :=
  match ev with
  | (CgetRedYellowGreenState _, _) => false
  | (Cclose, _) => false
  | (_, Rraised _) => true
  | _ => false
  end.

Definition is_close (ev : event) : bool :=
  match fst ev with
  | Cclose => true
  | _ => false
  end.

(** After a call that raised abruptly the log holds [close] calls
    only. *)
Fixpoint only_close_after_failure (tr : list event) : bool :=
  match tr with
  | [] => true
  | ev :: rest =>
      (if abrupt ev then forallb is_close rest else true) && only_close_after_failure rest
  end.

(** [m] makes no abrupt call, except possibly a last one with which it
    raises. *)
Definition halts_at_failure {W A : Type} (m : M W A) : Prop :=
  forall st, exists tr,
    log (snd (m st)) = log st ++ tr /\
    (forallb (fun ev => negb (abrupt ev)) tr = true \/
     exists tr0 ev e,
       tr = tr0 ++ [ev] /\
       forallb (fun ev0 => negb (abrupt ev0)) tr0 = true /\
       fst (m st) = Raise e).

(** The phase that drives the lights during tick [s] when all [n]
    phases last [d] ticks, and the tick at which it began. *)
Definition phase_of_tick (d n s : Z) : Z := (s / d) mod n.
Definition phase_start_of_tick (d s : Z) : Z := d * (s / d).

(** A simulator that cannot be reached: every call fails. *)
Inductive NoSumo : Type := no_sumo.

#[export] Instance NoSumo_Traci : Traci NoSumo := {
  traci_start := fun _ w => (Raise FatalTraCIError, w);
  traci_getIDList := fun w => (Raise FatalTraCIError, w);
  traci_setProgram := fun _ _ w => (Raise FatalTraCIError, w);
  traci_simulationStep := fun w => (Raise FatalTraCIError, w);
  traci_setRedYellowGreenState := fun _ _ w => (Raise FatalTraCIError, w);
  traci_getRedYellowGreenState := fun _ w => (Raise FatalTraCIError, w);
  traci_getMinExpectedNumber := fun w => (Raise FatalTraCIError, w);
  traci_close := fun w => (Raise FatalTraCIError, w)
}.

(** * Properties *)

(** ** The validator *)

Lemma validate_state_unfold (tl_id state : string) :
  validate_state tl_id state =
  if negb (len state =? expected_len tl_id) then
    if expected_len tl_id =? 3 then "rrr"
    else if expected_len tl_id =? 2 then "rr"
    else "r"
  else state.
Proof. reflexivity. Qed.

(** The configured lights and their lengths, one by one. *)
Lemma configured_lights (tl_id : string) :
  dict_mem TRAFFIC_LIGHTS tl_id = true ->
  tl_id = "T1" \/ tl_id = "T2" \/ tl_id = "T3" \/ tl_id = "T4" \/ tl_id = "T5".
Proof.
  intros Hm. unfold dict_mem, TRAFFIC_LIGHTS in Hm. cbn [existsb fst] in Hm.
  repeat (apply orb_prop in Hm; destruct Hm as [Hm|Hm];
          [apply String.eqb_eq in Hm; subst; tauto|]).
  discriminate Hm.
Qed.

Lemma dict_get_absent {A : Type} (d : list (string * A)) (key : string) (default : A) :
  dict_mem d key = false -> dict_get d key default = default.
Proof.
  induction d as [|[k v] d IH]; simpl; [reflexivity|].
  destruct (String.eqb k key); simpl; [discriminate | exact IH].
Qed.

Lemma len_all_red (n : nat) : len (all_red n) = Z.of_nat n.
Proof.
  unfold len. f_equal. induction n; simpl; congruence.
Qed.

(** C6: a state whose length is the expected one comes back unchanged,
    for every light id (configured or not). *)
Theorem validate_state_well_formed (tl_id state : string) :
  len state = expected_len tl_id ->
  validate_state tl_id state = state.
Proof.
  intros Hlen. rewrite validate_state_unfold.
  rewrite Hlen, Z.eqb_refl. reflexivity.
Qed.

Lemma validate_state_well_formed_witness :
  len "ggg" = expected_len "T1" /\ validate_state "T1" "ggg" = "ggg".
Proof.
  split; [reflexivity | apply (validate_state_well_formed "T1" "ggg"); reflexivity].
Defined.

(** Outside the table the fallback does not have the expected length:
    for an id that has no entry in [TRAFFIC_LIGHTS] the expected length
    is 0 and the fallback has length 1. *)
Lemma validate_state_fallback_unknown_id :
  len "g" <> expected_len "T9" /\
  validate_state "T9" "g" = "r" /\
  len (validate_state "T9" "g") <> expected_len "T9".
Proof.
  split; [|split]; [intros E; vm_compute in E; discriminate E | reflexivity |
                    intros E; vm_compute in E; discriminate E].
Qed.

(** C5: for every light id of [TRAFFIC_LIGHTS] (the ids the validator
    is called with) and every state of another length than expected,
    the validator returns the all-red string of exactly the expected
    length. *)
Theorem validate_state_fallback (tl_id state : string) :
  dict_mem TRAFFIC_LIGHTS tl_id = true ->
  len state <> expected_len tl_id ->
  validate_state tl_id state = all_red (Z.to_nat (expected_len tl_id)) /\
  len (validate_state tl_id state) = expected_len tl_id.
Proof.
  intros Hmem Hlen.
  assert (Hv : validate_state tl_id state = all_red (Z.to_nat (expected_len tl_id))).
  { rewrite validate_state_unfold.
    apply Z.eqb_neq in Hlen. rewrite Hlen. simpl negb. cbv iota.
    destruct (configured_lights tl_id Hmem) as [->|[->|[->|[->| ->]]]]; reflexivity. }
  split; [exact Hv|].
  rewrite Hv, len_all_red.
  destruct (configured_lights tl_id Hmem) as [->|[->|[->|[->| ->]]]]; reflexivity.
Qed.

Lemma validate_state_fallback_witness :
  validate_state "T4" "g" = all_red (Z.to_nat (expected_len "T4")) /\
  len (validate_state "T4" "g") = expected_len "T4".
Proof.
  apply (validate_state_fallback "T4" "g");
    [reflexivity | intros E; vm_compute in E; discriminate E].
Defined.

(** C10: for an id without an entry in [TRAFFIC_LIGHTS] the expected
    length is 0; every non-empty state is replaced by ["r"], which has
    length 1, and the empty state comes back unchanged. *)
Theorem validate_state_unknown_id (tl_id : string) :
  dict_mem TRAFFIC_LIGHTS tl_id = false ->
  expected_len tl_id = 0 /\
  (forall state, state <> "" -> validate_state tl_id state = "r") /\
  len "r" = 1 /\
  validate_state tl_id "" = "".
Proof.
  intros Hmem.
  assert (H0 : expected_len tl_id = 0) by (apply dict_get_absent; exact Hmem).
  repeat split; try exact H0.
  - intros state Hne. rewrite validate_state_unfold, H0.
    destruct state as [|c state]; [congruence|].
    unfold len; simpl String.length.
    destruct (Z.eqb_spec (Z.of_nat (S (String.length state))) 0) as [E|E]; [lia|reflexivity].
  - rewrite validate_state_unfold, H0. reflexivity.
Qed.

Lemma validate_state_unknown_id_witness :
  expected_len "T9" = 0 /\
  (forall state, state <> "" -> validate_state "T9" state = "r") /\
  len "r" = 1 /\
  validate_state "T9" "" = "".
Proof.
  apply (validate_state_unknown_id "T9"); reflexivity.
Defined.

(** ** The phase schedule *)

(** Looking a light up in one of the three pattern tables: either it is
    one of the five keys, or the lookup fails. *)
Ltac case_light tl_id :=
  destruct (decide (tl_id = "T1")) as [->|?];
  [|destruct (decide (tl_id = "T2")) as [->|?];
    [|destruct (decide (tl_id = "T3")) as [->|?];
      [|destruct (decide (tl_id = "T4")) as [->|?];
        [|destruct (decide (tl_id = "T5")) as [->|?]]]]].

Lemma PHASES_elem (phase : Phase) :
  phase ∈ PHASES ->
  phase = mkPhase 60 PHASE_1 "Phase 1" \/
  phase = mkPhase 60 PHASE_2 "Phase 2" \/
  phase = mkPhase 60 PHASE_3 "Phase 3".
Proof.
  unfold PHASES. rewrite !elem_of_cons, elem_of_nil. tauto.
Qed.

(** Goes through the fifteen patterns of the schedule. *)
Ltac each_pattern phase tl_id Hin Hlook :=
  destruct (PHASES_elem phase Hin) as [->|[->| ->]];
  cbn [patterns duration] in *;
  unfold PHASE_1, PHASE_2, PHASE_3 in Hlook;
  case_light tl_id;
  first
    [ rewrite !lookup_insert_ne, lookup_empty in Hlook by congruence;
      discriminate Hlook
    | vm_compute in Hlook; injection Hlook as <- ].

Lemma pattern_lookup_cases (phase : Phase) (tl_id : string) (pattern : list Segment) :
  phase ∈ PHASES ->
  patterns phase !! tl_id = Some pattern ->
  (tl_id <> "T5" /\ pattern_total pattern = 60 /\ duration phase = 60) \/
  (tl_id = "T5" /\ pattern = [("g", 10); ("r", 15); ("g", 25); ("y", 5)]
   /\ duration phase = 60).
Proof.
  intros Hin Hlook.
  each_pattern phase tl_id Hin Hlook;
    first [ left; split; [discriminate | split; reflexivity]
          | right; repeat split; reflexivity ].
Qed.

Lemma pattern_lookup_bounds (phase : Phase) (tl_id : string) (pattern : list Segment) :
  phase ∈ PHASES ->
  patterns phase !! tl_id = Some pattern ->
  Forall (fun seg => 0 <= snd seg) pattern /\ pattern_total pattern <= 60.
Proof.
  intros Hin Hlook.
  each_pattern phase tl_id Hin Hlook;
    (split; [repeat constructor; simpl; lia | simpl; lia]).
Qed.

(** Within its total the walk always stops at a segment. *)
Lemma find_state_within (pattern : list Segment) (elapsed : Z) :
  0 <= elapsed < pattern_total pattern ->
  is_Some (find_state pattern elapsed).
Proof.
  revert elapsed.
  induction pattern as [|[state d] rest IH]; intros elapsed [Hlo Hhi]; simpl in *.
  - lia.
  - destruct (Z.ltb_spec elapsed d) as [Hlt|Hge]; [eauto|].
    apply IH. lia.
Qed.

(** From its total on the walk falls off the end of the pattern. *)
Lemma find_state_beyond (pattern : list Segment) (elapsed : Z) :
  Forall (fun seg => 0 <= snd seg) pattern ->
  pattern_total pattern <= elapsed ->
  find_state pattern elapsed = None.
Proof.
  intros Hpos. revert elapsed.
  induction Hpos as [|[state d] rest Hd Hrest IH]; intros elapsed Hge; simpl in *.
  - reflexivity.
  - assert (0 <= pattern_total rest).
    { clear -Hrest. induction Hrest as [|[s x] l Hx Hl IHl]; simpl in *; lia. }
    destruct (Z.ltb_spec elapsed d) as [Hlt|Hge']; [lia|].
    apply IH. lia.
Qed.

(** C2, as stated, fails: the pattern of T5 in Phase 1 adds up to 55,
    the phase lasts 60. *)
Lemma T5_total_differs_from_duration :
  mkPhase 60 PHASE_1 "Phase 1" ∈ PHASES /\
  patterns (mkPhase 60 PHASE_1 "Phase 1") !! "T5"
    = Some [("g", 10); ("r", 15); ("g", 25); ("y", 5)] /\
  pattern_total [("g", 10); ("r", 15); ("g", 25); ("y", 5)] = 55 /\
  duration (mkPhase 60 PHASE_1 "Phase 1") = 60.
Proof.
  repeat split; try reflexivity.
  unfold PHASES. apply elem_of_cons. left. reflexivity.
Qed.

(** C2, amended: in every phase of [PHASES] the pattern of every light
    other than T5 adds up to the duration of the phase; the pattern of
    T5 adds up to 55 in each phase, five short of the duration. *)
Theorem pattern_totals (phase : Phase) (tl_id : string) (pattern : list Segment) :
  phase ∈ PHASES ->
  patterns phase !! tl_id = Some pattern ->
  (tl_id <> "T5" -> pattern_total pattern = duration phase) /\
  (tl_id = "T5" -> pattern_total pattern = 55 /\ duration phase = 60).
Proof.
  intros Hin Hlook.
  destruct (pattern_lookup_cases phase tl_id pattern Hin Hlook)
    as [(Hne & Htot & Hdur)|(Heq & Hpat & Hdur)].
  - split; [intros _; congruence | intros Heq; contradiction].
  - split; [intros Hne; contradiction | intros _; subst pattern; split; [reflexivity|exact Hdur]].
Qed.

Lemma pattern_totals_witness :
  ("T4" <> "T5" -> pattern_total [("gg", 55); ("yy", 5)] = duration (mkPhase 60 PHASE_1 "Phase 1")) /\
  ("T4" = "T5" -> pattern_total [("gg", 55); ("yy", 5)] = 55
                  /\ duration (mkPhase 60 PHASE_1 "Phase 1") = 60).
Proof.
  apply (pattern_totals (mkPhase 60 PHASE_1 "Phase 1") "T4" [("gg", 55); ("yy", 5)]).
  - unfold PHASES. apply elem_of_cons. left. reflexivity.
  - reflexivity.
Defined.

(** C3, as stated, fails: 55 ticks into Phase 1 the walk over the
    pattern of T5 runs off the end without a match. *)
Lemma T5_walk_exhausted :
  mkPhase 60 PHASE_1 "Phase 1" ∈ PHASES /\
  patterns (mkPhase 60 PHASE_1 "Phase 1") !! "T5"
    = Some [("g", 10); ("r", 15); ("g", 25); ("y", 5)] /\
  0 <= 55 < duration (mkPhase 60 PHASE_1 "Phase 1") /\
  find_state [("g", 10); ("r", 15); ("g", 25); ("y", 5)] 55 = None.
Proof.
  split; [unfold PHASES; apply elem_of_cons; left; reflexivity|].
  split; [reflexivity|]. split; [simpl; lia | reflexivity].
Qed.

(** C3, amended: in every phase of [PHASES] and for every elapsed time
    from 0 up to the duration of the phase, the walk over the pattern
    of a light other than T5 stops at a segment and yields its state;
    for T5 it does so as long as the elapsed time is below 55, the
    total of its pattern, and from 55 on it reaches the end of the
    pattern without a match. *)
Theorem find_state_in_phase (phase : Phase) (tl_id : string) (pattern : list Segment)
    (elapsed : Z) :
  phase ∈ PHASES ->
  patterns phase !! tl_id = Some pattern ->
  0 <= elapsed < duration phase ->
  (tl_id <> "T5" -> is_Some (find_state pattern elapsed)) /\
  (tl_id = "T5" ->
     (elapsed < 55 -> is_Some (find_state pattern elapsed)) /\
     (55 <= elapsed -> find_state pattern elapsed = None)).
Proof.
  intros Hin Hlook Hel.
  destruct (pattern_lookup_cases phase tl_id pattern Hin Hlook)
    as [(Hne & Htot & Hdur)|(Heq & Hpat & Hdur)].
  - split; [|intros Heq; contradiction].
    intros _. apply find_state_within. lia.
  - split; [intros Hne; contradiction|]. intros _. subst pattern. split.
    + intros Hlt. apply find_state_within. simpl. lia.
    + intros Hge. apply find_state_beyond; [|simpl; lia].
      repeat constructor; simpl; lia.
Qed.

Lemma find_state_in_phase_witness :
  ("T5" <> "T5" -> is_Some (find_state [("g", 10); ("r", 15); ("g", 25); ("y", 5)] 30)) /\
  ("T5" = "T5" ->
     (30 < 55 -> is_Some (find_state [("g", 10); ("r", 15); ("g", 25); ("y", 5)] 30)) /\
     (55 <= 30 -> find_state [("g", 10); ("r", 15); ("g", 25); ("y", 5)] 30 = None)).
Proof.
  apply (find_state_in_phase (mkPhase 60 PHASE_1 "Phase 1") "T5").
  - unfold PHASES. apply elem_of_cons. left. reflexivity.
  - reflexivity.
  - simpl. lia.
Defined.

(** ** Computations and their logs *)

Section Computations.
Context {W : Type}.

Lemma bind_assoc {A B C : Type} (m : M W A) (f : A -> M W B) (g : B -> M W C) (st : St W) :
  bind (bind m f) g st = bind m (fun a => bind (f a) g) st.
Proof.
  unfold bind. destruct (m st) as [[a|e] st1]; reflexivity.
Qed.

Lemma bind_ret_l {A B : Type} (a : A) (k : A -> M W B) : bind (ret a) k = k a.
Proof. reflexivity. Qed.

Lemma bind_raise_l {A B : Type} (e : exn) (k : A -> M W B) : bind (raise e) k = raise e.
Proof. reflexivity. Qed.

Lemma bind_Ok_inv {A B : Type} (m : M W A) (k : A -> M W B) (st st' : St W) (b : B) :
  bind m k st = (Ok b, st') ->
  exists a st1, m st = (Ok a, st1) /\ k a st1 = (Ok b, st').
Proof.
  unfold bind. destruct (m st) as [[a|e] st1]; intros Hk; [eauto | discriminate Hk].
Qed.

Lemma emits_weaken {A : Type} (m : M W A) (P Q : list event -> Prop) :
  (forall tr, P tr -> Q tr) -> emits m P -> emits m Q.
Proof.
  intros HPQ Hm st. destruct (Hm st) as (tr & Hlog & HP). eauto.
Qed.

Lemma emits_ret {A : Type} (a : A) (P : list event -> Prop) :
  P [] -> emits (ret (W:=W) a) P.
Proof.
  intros HP st. exists []. simpl. rewrite app_nil_r. auto.
Qed.

Lemma emits_raise {A : Type} (e : exn) (P : list event -> Prop) :
  P [] -> emits (raise (W:=W) (A:=A) e) P.
Proof.
  intros HP st. exists []. simpl. rewrite app_nil_r. auto.
Qed.

Lemma emits_invoke {A : Type} (c : call) (enc : A -> reply) (op : W -> outcome A * W)
    (P : list event -> Prop) :
  (forall r, P [(c, r)]) -> emits (invoke c enc op) P.
Proof.
  intros HP st. unfold invoke. destruct (op (world st)) as [r w']. simpl. eauto.
Qed.

(** Sequencing, with one property for each half. *)
Lemma emits_seq {A B : Type} (m : M W A) (k : A -> M W B) (P Q : list event -> Prop) :
  Q [] ->
  emits m P -> (forall a, emits (k a) Q) ->
  emits (bind m k) (fun tr => exists tr1 tr2, tr = tr1 ++ tr2 /\ P tr1 /\ Q tr2).
Proof.
  intros HQ Hm Hk st. unfold bind.
  destruct (Hm st) as (tr1 & Hlog1 & HP).
  destruct (m st) as [[a|e] st1]; simpl in Hlog1.
  - destruct (Hk a st1) as (tr2 & Hlog2 & HQ2).
    exists (tr1 ++ tr2). split.
    + rewrite Hlog2, Hlog1, app_assoc. reflexivity.
    + eauto.
  - exists tr1. simpl. split; [exact Hlog1|].
    exists tr1, []. rewrite app_nil_r. auto.
Qed.

Lemma emits_bind {A B : Type} (m : M W A) (k : A -> M W B) (P : list event -> Prop) :
  stretchwise P ->
  emits m P -> (forall a, emits (k a) P) -> emits (bind m k) P.
Proof.
  intros [Hnil Happ] Hm Hk.
  eapply emits_weaken; [|apply (emits_seq m k P P Hnil Hm Hk)].
  intros tr (tr1 & tr2 & -> & H1 & H2). auto.
Qed.

Lemma emits_try_except {A : Type} (body : M W A) (handler : exn -> M W A)
    (P : list event -> Prop) :
  stretchwise P ->
  emits body P -> (forall e, emits (handler e) P) -> emits (try_except body handler) P.
Proof.
  intros [Hnil Happ] Hb Hh st. unfold try_except.
  destruct (Hb st) as (tr1 & Hlog1 & HP).
  destruct (body st) as [[a|e] st1]; simpl in Hlog1.
  - exists tr1. auto.
  - destruct (Hh e st1) as (tr2 & Hlog2 & HP2).
    exists (tr1 ++ tr2). rewrite Hlog2, Hlog1, app_assoc. auto.
Qed.

Lemma emits_for_each {A : Type} (l : list A) (body : A -> M W unit)
    (P : list event -> Prop) :
  stretchwise P ->
  (forall x, emits (body x) P) -> emits (for_each l body) P.
Proof.
  intros HP Hbody. induction l as [|x rest IH]; simpl.
  - apply emits_ret, HP.
  - apply emits_bind; auto.
Qed.

Lemma emits_py_index {A : Type} (l : list A) (i : Z) (P : list event -> Prop) :
  P [] -> emits (py_index (W:=W) l i) P.
Proof.
  intros HP. unfold py_index.
  destruct (py_lookup l i); [apply emits_ret | apply emits_raise]; exact HP.
Qed.

End Computations.

(** *** Properties of stretches of the log *)

Lemma stretchwise_True : stretchwise (fun _ => True).
Proof. split; auto. Qed.

Lemma stretchwise_forallb (f : event -> bool) :
  stretchwise (fun tr => forallb f tr = true).
Proof.
  split; [reflexivity|].
  intros tr1 tr2 H1 H2. rewrite forallb_app, H1, H2. reflexivity.
Qed.

Lemma body_runs_app (tr1 tr2 : list event) :
  body_runs (tr1 ++ tr2) = (body_runs tr1 + body_runs tr2)%nat.
Proof.
  induction tr1 as [|ev tr1 IH]; simpl; [reflexivity | rewrite IH; lia].
Qed.

Lemma body_runs_no_step (tr : list event) :
  forallb (fun ev => negb (is_step ev)) tr = true -> body_runs tr = O.
Proof.
  induction tr as [|ev tr IH]; simpl; [reflexivity|].
  intros Hall. apply andb_prop in Hall as [Hev Hrest].
  destruct (is_step ev); [discriminate Hev | auto].
Qed.

Lemma reported_none_left_app (tr1 tr2 : list event) :
  reported_none_left (tr1 ++ tr2) = reported_none_left tr1 || reported_none_left tr2.
Proof. apply existsb_app. Qed.

(** A stretch that is guarded on its own is guarded after any event. *)
Lemma pushes_guarded_any (prev : option event) (tr : list event) :
  pushes_guarded None tr = true -> pushes_guarded prev tr = true.
Proof.
  destruct tr as [|[c r] rest]; simpl; [reflexivity|].
  destruct c; simpl; auto; discriminate.
Qed.

Lemma pushes_guarded_app (prev : option event) (tr1 tr2 : list event) :
  pushes_guarded prev tr1 = true -> pushes_guarded None tr2 = true ->
  pushes_guarded prev (tr1 ++ tr2) = true.
Proof.
  revert prev. induction tr1 as [|ev tr1 IH]; intros prev H1 H2; simpl in *.
  - apply pushes_guarded_any, H2.
  - apply andb_prop in H1 as [Hev Hrest]. rewrite Hev. simpl. auto.
Qed.

(** Stretches made of reads are guarded and hold no step. *)
Lemma quiet_guarded (prev : option event) (tr : list event) :
  forallb is_quiet tr = true -> pushes_guarded prev tr = true.
Proof.
  revert prev. induction tr as [|[c r] tr IH]; intros prev Hq; simpl in *; [reflexivity|].
  apply andb_prop in Hq as [Hev Hrest]. rewrite IH by exact Hrest.
  destruct c; try reflexivity. discriminate Hev.
Qed.

Lemma quiet_no_step (tr : list event) :
  forallb is_quiet tr = true -> body_runs tr = O.
Proof.
  intros Hq. apply body_runs_no_step.
  induction tr as [|ev tr IH]; simpl in *; [reflexivity|].
  apply andb_prop in Hq as [Hev Hrest]. rewrite IH by exact Hrest.
  unfold is_quiet in Hev. apply andb_prop in Hev as [_ ->]. reflexivity.
Qed.

Lemma pushes_no_step (tr : list event) :
  forallb is_push tr = true -> body_runs tr = O.
Proof.
  intros Hp. apply body_runs_no_step.
  induction tr as [|[c r] tr IH]; simpl in *; [reflexivity|].
  apply andb_prop in Hp as [Hev Hrest]. rewrite IH by exact Hrest.
  destruct c; try discriminate Hev; reflexivity.
Qed.

(** ** The pieces of the loop body *)

Lemma stretchwise_calm : stretchwise calm.
Proof.
  split; [split; reflexivity|].
  intros tr1 tr2 [G1 S1] [G2 S2]. split.
  - apply pushes_guarded_app; assumption.
  - rewrite body_runs_app, S1, S2. reflexivity.
Qed.

Lemma quiet_calm (tr : list event) : forallb is_quiet tr = true -> calm tr.
Proof.
  intros Hq. split; [apply quiet_guarded | apply quiet_no_step]; exact Hq.
Qed.

Section ControllerFacts.
Context {W : Type} `{Traci W}.
Variable lights : list (string * Z).
Variable phases : list Phase.
Variable budget : Z.

Lemma apply_phase_pushes (existing_tls : list string) (current_phase_data : Phase) :
  emits (apply_phase lights existing_tls current_phase_data)
        (fun tr => forallb is_push tr = true).
Proof.
  unfold apply_phase. apply emits_for_each; [apply stretchwise_forallb|].
  intros tl_id.
  destruct (patterns current_phase_data !! tl_id) as [[|[state d] rest]|];
    try (apply emits_ret; reflexivity).
  apply emits_invoke. reflexivity.
Qed.

(** The walk without its effects decides what the walk does. *)
Lemma walk_pattern_find_state (tl_id : string) (pattern : list Segment) (elapsed : Z)
    (st : St W) :
  walk_pattern lights tl_id pattern elapsed st =
  match find_state pattern elapsed with
  | Some state =>
      (let valid_state := validate_state_in lights tl_id state in
       let* current_state := getRedYellowGreenState tl_id in
       if negb (String.eqb current_state valid_state) then
         setRedYellowGreenState tl_id valid_state
       else ret tt) st
  | None => (Ok tt, st)
  end.
Proof.
  revert elapsed. induction pattern as [|[state d] rest IH]; intros elapsed; simpl.
  - reflexivity.
  - destruct (elapsed <? d); [reflexivity | apply IH].
Qed.

Lemma walk_pattern_calm (tl_id : string) (pattern : list Segment) (elapsed : Z) :
  emits (walk_pattern lights tl_id pattern elapsed) calm.
Proof.
  intros st. rewrite walk_pattern_find_state.
  destruct (find_state pattern elapsed) as [state|].
  - cbv zeta. unfold bind, getRedYellowGreenState, setRedYellowGreenState, invoke.
    destruct (traci_getRedYellowGreenState tl_id (world st)) as [[current_state|e] w1];
      cbn [world log].
    + destruct (String.eqb current_state (validate_state_in lights tl_id state)) eqn:Heq;
        cbn [negb world log].
      * eexists. split; [reflexivity|]. split; reflexivity.
      * destruct (traci_setRedYellowGreenState tl_id
                    (validate_state_in lights tl_id state) w1) as [r w2]. cbn [snd log].
        eexists. split; [rewrite <- app_assoc; reflexivity|].
        split; [|reflexivity].
        simpl. rewrite String.eqb_refl, Heq. reflexivity.
    + eexists. split; [reflexivity|]. split; reflexivity.
  - exists []. simpl. rewrite app_nil_r. split; [reflexivity | split; reflexivity].
Qed.

Lemma update_lights_calm (existing_tls : list string) (current_phase_data : Phase)
    (time_in_phase : Z) :
  emits (update_lights lights existing_tls current_phase_data time_in_phase) calm.
Proof.
  unfold update_lights. apply emits_for_each; [apply stretchwise_calm|].
  intros tl_id. destruct (patterns current_phase_data !! tl_id) as [pattern|].
  - apply walk_pattern_calm.
  - apply emits_ret, stretchwise_calm.
Qed.

Lemma status_update_calm (existing_tls : list string) :
  emits (status_update existing_tls) calm.
Proof.
  unfold status_update. apply emits_for_each; [apply stretchwise_calm|].
  intros tl_id. apply emits_try_except; [apply stretchwise_calm | |].
  - apply emits_bind; [apply stretchwise_calm | |].
    + apply emits_invoke. intros r. apply quiet_calm. reflexivity.
    + intros _. apply emits_ret, stretchwise_calm.
  - intros e. apply emits_ret, stretchwise_calm.
Qed.

Lemma loop_body_stretch (existing_tls : list string) (ls : LoopState) :
  emits (loop_body lights phases existing_tls ls) (body_stretch phases ls).
Proof.
  unfold loop_body. cbv zeta.
  set (time_in_phase := step ls - phase_start_time ls).
  assert (Hnil : forall P : Prop, exists tr1 tr2 : list event,
             @nil event = tr1 ++ tr2 /\ forallb is_push tr1 = true /\ calm tr2 /\ (P -> tr1 = [])).
  { intros P. exists [], []. repeat split; reflexivity. }
  eapply emits_weaken;
    [|apply (emits_seq _ _ (fun tr => exists ev, tr = [ev] /\ is_step ev = true)
               (fun tr => exists tr1 tr2, tr = tr1 ++ tr2 /\
                  forallb is_push tr1 = true /\ calm tr2 /\
                  ((forall current_phase_data,
                      py_lookup phases (current_phase ls) = Some current_phase_data ->
                      time_in_phase < duration current_phase_data) -> tr1 = [])))].
  - intros tr (tr1 & tr2 & -> & (ev & -> & Hev) & (ta & tb & -> & Hp & Hc & Hno)).
    exists ev, ta, tb. auto.
  - apply Hnil.
  - apply emits_invoke. intros r. eexists. split; reflexivity.
  - intros _. unfold py_index.
    destruct (py_lookup phases (current_phase ls)) as [current_phase_data|];
      [rewrite bind_ret_l | rewrite bind_raise_l; apply emits_raise, Hnil].
    assert (Hrest : forall (cp pst : Z) (cpd : Phase),
               emits (update_lights lights existing_tls cpd time_in_phase >>
                      (if step ls mod 30 =? 0 then status_update existing_tls else ret tt) >>
                      ret (mkLoopState cp pst (step ls + 1))) calm).
    { intros cp pst cpd.
      apply emits_bind; [apply stretchwise_calm | apply update_lights_calm |].
      intros _. apply emits_bind; [apply stretchwise_calm | |].
      - destruct (step ls mod 30 =? 0);
          [apply status_update_calm | apply emits_ret, stretchwise_calm].
      - intros _. apply emits_ret, stretchwise_calm. }
    destruct (Z.geb_spec time_in_phase (duration current_phase_data)) as [Hge|Hlt].
    + (* the phase changes *)
      intros st. rewrite bind_assoc. revert st.
      unfold py_mod. destruct (Z.of_nat (length phases) =? 0);
        [rewrite bind_raise_l; apply emits_raise, Hnil | rewrite bind_ret_l].
      intros st. rewrite bind_assoc. revert st. unfold py_index.
      destruct (py_lookup phases _) as [current_phase_data'|];
        [rewrite bind_ret_l | rewrite bind_raise_l; apply emits_raise, Hnil].
      intros st. rewrite bind_assoc. revert st.
      eapply emits_weaken;
        [|apply (emits_seq _ _ (fun tr => forallb is_push tr = true) calm);
          [apply stretchwise_calm | apply apply_phase_pushes | intros _; apply Hrest]].
      intros tr (tr1 & tr2 & -> & Hp & Hc). exists tr1, tr2.
      repeat split; try assumption; try apply Hc.
      intros Hno. specialize (Hno _ eq_refl). lia.
    + (* it does not *)
      rewrite bind_ret_l.
      eapply emits_weaken; [|apply Hrest].
      intros tr Hc. exists [], tr. repeat split; try apply Hc; reflexivity.
Qed.

End ControllerFacts.

(** ** The main loop *)

Section MainLoopFacts.
Context {W : Type} `{Traci W}.
Variable lights : list (string * Z).
Variable phases : list Phase.
Variable budget : Z.

Lemma loop_body_step (existing_tls : list string) (ls ls' : LoopState) (st st' : St W) :
  loop_body lights phases existing_tls ls st = (Ok ls', st') ->
  step ls' = step ls + 1.
Proof.
  unfold loop_body. cbv zeta. intros Hb.
  apply bind_Ok_inv in Hb as (_ & st1 & _ & Hb).
  apply bind_Ok_inv in Hb as (current_phase_data & st2 & _ & Hb).
  apply bind_Ok_inv in Hb as ([[cp pst] cpd] & st3 & _ & Hb).
  apply bind_Ok_inv in Hb as (_ & st4 & _ & Hb).
  apply bind_Ok_inv in Hb as (_ & st5 & _ & Hb).
  injection Hb as <- _. reflexivity.
Qed.

(** Any fuel from [Z.to_nat (budget - step)] on gives the same run:
    the loop never stops for lack of fuel. *)
Lemma main_loop_fuel (fuel : nat) (existing_tls : list string) (ls : LoopState) (st : St W) :
  (Z.to_nat (budget - step ls) <= fuel)%nat ->
  main_loop lights phases budget fuel existing_tls ls st =
  main_loop lights phases budget (Z.to_nat (budget - step ls)) existing_tls ls st.
Proof.
  revert ls st. induction fuel as [|fuel IH]; intros ls st Hfuel.
  - replace (Z.to_nat (budget - step ls)) with O by lia. reflexivity.
  - destruct (Z.ltb_spec (step ls) budget) as [Hlt|Hge].
    + destruct (Z.to_nat (budget - step ls)) as [|n] eqn:Hn; [lia|].
      simpl. apply Z.ltb_lt in Hlt. rewrite Hlt. unfold bind.
      destruct (getMinExpectedNumber st) as [[remaining|e] st1]; [|reflexivity].
      destruct (remaining >? 0); [|reflexivity].
      destruct (loop_body lights phases existing_tls ls st1) as [[ls'|e] st2] eqn:Hbody;
        [|reflexivity].
      apply loop_body_step in Hbody.
      rewrite IH by lia. f_equal. lia.
    + replace (Z.to_nat (budget - step ls)) with O by lia.
      simpl. apply Z.ltb_ge in Hge. rewrite Hge. reflexivity.
Qed.

Lemma main_loop_unfold (fuel : nat) (existing_tls : list string) (ls : LoopState)
    (st : St W) :
  main_loop lights phases budget (S fuel) existing_tls ls st =
  if step ls <? budget then
    match getMinExpectedNumber st with
    | (Ok remaining, st1) =>
        if remaining >? 0 then
          match loop_body lights phases existing_tls ls st1 with
          | (Ok ls', st2) => main_loop lights phases budget fuel existing_tls ls' st2
          | (Raise e, st2) => (Raise e, st2)
          end
        else (Ok ls, st1)
    | (Raise e, st1) => (Raise e, st1)
    end
  else (Ok ls, st).
Proof.
  simpl. destruct (step ls <? budget); [|reflexivity].
  unfold bind. destruct (getMinExpectedNumber st) as [[remaining|e] st1]; [|reflexivity].
  destruct (remaining >? 0); reflexivity.
Qed.

Lemma getMinExpectedNumber_log (st st1 : St W) (r : outcome Z) :
  getMinExpectedNumber st = (r, st1) ->
  log st1 = log st ++ [(CgetMinExpectedNumber,
                        match r with Ok n => Rnumber n | Raise e => Rraised e end)].
Proof.
  unfold getMinExpectedNumber, invoke.
  destruct (traci_getMinExpectedNumber (world st)) as [r' w'].
  intros Heq. injection Heq as <- <-. reflexivity.
Qed.

(** The log of the main loop: at most [budget - step] runs of the body,
    and fewer only after [getMinExpectedNumber] reported no vehicle
    left or after an exception. *)
Lemma main_loop_runs (fuel : nat) (existing_tls : list string) (ls : LoopState) (st : St W) :
  (Z.to_nat (budget - step ls) <= fuel)%nat ->
  exists tr,
    log (snd (main_loop lights phases budget fuel existing_tls ls st)) = log st ++ tr /\
    Z.of_nat (body_runs tr) <= Z.max 0 (budget - step ls) /\
    (Z.of_nat (body_runs tr) < budget - step ls ->
     reported_none_left tr = true \/
     exists e, fst (main_loop lights phases budget fuel existing_tls ls st) = Raise e).
Proof.
  revert ls st. induction fuel as [|fuel IH]; intros ls st Hfuel.
  - exists []. simpl. rewrite app_nil_r. repeat split; lia.
  - rewrite main_loop_unfold.
    destruct (Z.ltb_spec (step ls) budget) as [Hlt|Hge];
      [|(* the budget is used up: the loop test fails *)
        exists []; simpl; rewrite app_nil_r; repeat split; lia].
    destruct (getMinExpectedNumber st) as [[remaining|e] st1] eqn:Hmin;
      apply getMinExpectedNumber_log in Hmin.
    + (* the call answered *)
      destruct (remaining >? 0) eqn:Hrem.
      * (* the body runs *)
        destruct (loop_body_stretch lights phases existing_tls ls st1)
          as (trb & Hlogb & (ev & ta & tb & -> & Hev & Hta & [_ Htb] & _)).
        assert (Hruns : body_runs (ev :: ta ++ tb) = 1%nat).
        { cbn [body_runs]. rewrite Hev, body_runs_app, (pushes_no_step ta Hta), Htb.
          reflexivity. }
        destruct (loop_body lights phases existing_tls ls st1) as [[ls'|e] st2] eqn:Hbody;
          simpl in Hlogb.
        -- pose proof (loop_body_step _ _ _ _ _ Hbody) as Hstep.
           destruct (IH ls' st2 ltac:(lia)) as (tr & Hlog & Hle & Hfew).
           exists ([(CgetMinExpectedNumber, Rnumber remaining)] ++ (ev :: ta ++ tb) ++ tr).
           split; [|split].
           ++ rewrite Hlog, Hlogb, Hmin, <- !app_assoc. reflexivity.
           ++ rewrite !body_runs_app, Hruns. simpl body_runs. lia.
           ++ rewrite !body_runs_app, Hruns. simpl body_runs.
              intros Hlt'. destruct Hfew as [Hrep|Hraise]; [lia| |right; exact Hraise].
              left. rewrite !reported_none_left_app, Hrep, !orb_true_r. reflexivity.
        -- exists ([(CgetMinExpectedNumber, Rnumber remaining)] ++ ev :: ta ++ tb).
           split; [|split].
           ++ simpl fst. simpl snd. rewrite Hlogb, Hmin, <- !app_assoc. reflexivity.
           ++ rewrite body_runs_app, Hruns. simpl body_runs. lia.
           ++ intros _. right. exists e. reflexivity.
      * (* no vehicle left *)
        exists [(CgetMinExpectedNumber, Rnumber remaining)].
        split; [exact Hmin|]. split; [simpl; lia|].
        intros _. left. simpl. rewrite Hrem. reflexivity.
    + (* the call raised *)
      exists [(CgetMinExpectedNumber, Rraised e)].
      split; [exact Hmin|]. split; [simpl; lia|].
      intros _. right. exists e. reflexivity.
Qed.

End MainLoopFacts.

(** ** A tick on which the phase changes *)

Section PhaseChange.
Context {W : Type} `{Traci W}.
Variable lights : list (string * Z).
Variable phases : list Phase.

Lemma bind_ext {A B : Type} (m : M W A) (k k' : A -> M W B) (st : St W) :
  (forall a st1, k a st1 = k' a st1) -> bind m k st = bind m k' st.
Proof.
  intros Hk. unfold bind. destruct (m st) as [[a|e] st1]; [apply Hk | reflexivity].
Qed.

(** The loop body on a tick on which [time_in_phase] has reached the
    duration of the current phase.  [time_in_phase] is computed before
    the test and is what "Update each traffic light" walks the patterns
    of the new phase with. *)
Lemma loop_body_phase_change (existing_tls : list string) (ls : LoopState)
    (current_phase_data next_phase_data : Phase) (st : St W) :
  py_lookup phases (current_phase ls) = Some current_phase_data ->
  step ls - phase_start_time ls >= duration current_phase_data ->
  Z.of_nat (length phases) <> 0 ->
  py_lookup phases ((current_phase ls + 1) mod Z.of_nat (length phases))
    = Some next_phase_data ->
  loop_body lights phases existing_tls ls st =
  (simulationStep >>
   apply_phase lights existing_tls next_phase_data >>
   update_lights lights existing_tls next_phase_data (step ls - phase_start_time ls) >>
   (if step ls mod 30 =? 0 then status_update existing_tls else ret tt) >>
   ret (mkLoopState ((current_phase ls + 1) mod Z.of_nat (length phases))
                    (step ls) (step ls + 1))) st.
Proof.
  intros Hcur Hge Hlen Hnext.
  unfold loop_body. cbv zeta. apply bind_ext. intros _ st1.
  unfold py_index at 1. rewrite Hcur, bind_ret_l.
  destruct (Z.geb_spec (step ls - phase_start_time ls) (duration current_phase_data))
    as [_|Hlt]; [|lia].
  unfold py_mod. apply Z.eqb_neq in Hlen. rewrite Hlen.
  rewrite bind_assoc, bind_ret_l.
  unfold py_index. rewrite Hnext.
  rewrite bind_assoc, bind_ret_l, bind_assoc.
  reflexivity.
Qed.

End PhaseChange.

(** At and beyond 60 ticks the walk over any pattern of the schedule
    runs off the end, so "Update each traffic light" makes no call. *)
Lemma update_lights_beyond {W : Type} `{Traci W} (existing_tls : list string)
    (phase : Phase) (time_in_phase : Z) (st : St W) :
  phase ∈ PHASES ->
  60 <= time_in_phase ->
  update_lights TRAFFIC_LIGHTS existing_tls phase time_in_phase st = (Ok tt, st).
Proof.
  intros Hin Hge. revert st. unfold update_lights.
  induction existing_tls as [|tl_id rest IH]; intros st; simpl; [reflexivity|].
  unfold bind at 1.
  destruct (patterns phase !! tl_id) as [pattern|] eqn:Hlook.
  - rewrite walk_pattern_find_state.
    destruct (pattern_lookup_bounds phase tl_id pattern Hin Hlook) as [Hpos Htot].
    rewrite (find_state_beyond pattern time_in_phase Hpos) by lia.
    apply IH.
  - apply IH.
Qed.

(** C1: on the tick on which the first phase ends (step 60, phase index
    0, phase started at 0) the loop body moves to phase index 1 and
    sets the phase start to 60, but the elapsed time it hands to the
    update of the lights is still 60, not 0; with 60 the walk over
    every pattern of the new phase ends without a match, so the update
    makes no call at all on this tick. *)
Theorem phase_change_keeps_time_in_phase {W : Type} `{Traci W}
    (existing_tls : list string) (st : St W) :
  loop_body TRAFFIC_LIGHTS PHASES existing_tls (mkLoopState 0 0 60) st =
    (simulationStep >>
     apply_phase TRAFFIC_LIGHTS existing_tls (mkPhase 60 PHASE_2 "Phase 2") >>
     update_lights TRAFFIC_LIGHTS existing_tls (mkPhase 60 PHASE_2 "Phase 2") 60 >>
     status_update existing_tls >>
     ret (mkLoopState 1 60 61)) st /\
  update_lights TRAFFIC_LIGHTS existing_tls (mkPhase 60 PHASE_2 "Phase 2") 60 st
    = (Ok tt, st).
Proof.
  split.
  - apply (loop_body_phase_change TRAFFIC_LIGHTS PHASES existing_tls (mkLoopState 0 0 60)
             (mkPhase 60 PHASE_1 "Phase 1") (mkPhase 60 PHASE_2 "Phase 2"));
      try reflexivity; simpl; lia.
  - apply update_lights_beyond; [|lia].
    unfold PHASES. rewrite !elem_of_cons. auto.
Qed.

(** With an elapsed time of 0 the same update reads every light. *)
Example update_lights_at_zero :
  map fst (log (snd (update_lights TRAFFIC_LIGHTS ["T2"; "T3"]
                       (mkPhase 60 PHASE_2 "Phase 2") 0
                       (mkSt (mkSim all_ids (<["T2" := "rr"]> (<["T3" := "rrr"]> ∅)) 2 None false)
                             [])))) =
  [CgetRedYellowGreenState "T2"; CsetRedYellowGreenState "T2" "gg";
   CgetRedYellowGreenState "T3"].
Proof. vm_compute. reflexivity. Qed.

(** What the stale elapsed time does under a schedule with phases of
    different lengths: on the tick that enters phase B the first state
    of B, "r", is pushed, and then the update, walking the pattern of B
    with the 30 ticks spent in phase A, pushes "g". *)
Example stale_elapsed_uneven_schedule :
  log (snd (loop_body [("X", 1)] uneven_schedule ["X"] (mkLoopState 0 0 30)
              (mkSt one_light []))) =
  [(CsimulationStep, Rnone);
   (CsetRedYellowGreenState "X" "r", Rnone);
   (CgetRedYellowGreenState "X", Rstate "r");
   (CsetRedYellowGreenState "X" "g", Rnone);
   (CgetRedYellowGreenState "X", Rstate "g")] /\
  find_state [("r", 30); ("g", 30)] 0 = Some "r".
Proof. vm_compute. split; reflexivity. Qed.

(** C8: with N phases, a loop body entered with phase index N-1 and an
    elapsed time that has reached the duration of that phase continues
    with the first phase, and the phase index it leaves is 0. *)
Theorem phase_index_wraps {W : Type} `{Traci W} (lights : list (string * Z))
    (phases : list Phase) (existing_tls : list string) (ls : LoopState)
    (current_phase_data : Phase) :
  current_phase ls = Z.of_nat (length phases) - 1 ->
  py_lookup phases (current_phase ls) = Some current_phase_data ->
  step ls - phase_start_time ls >= duration current_phase_data ->
  exists first_phase,
    py_lookup phases 0 = Some first_phase /\
    (forall st,
       loop_body lights phases existing_tls ls st =
       (simulationStep >>
        apply_phase lights existing_tls first_phase >>
        update_lights lights existing_tls first_phase (step ls - phase_start_time ls) >>
        (if step ls mod 30 =? 0 then status_update existing_tls else ret tt) >>
        ret (mkLoopState 0 (step ls) (step ls + 1))) st) /\
    (forall st ls' st',
       loop_body lights phases existing_tls ls st = (Ok ls', st') ->
       current_phase ls' = 0).
Proof.
  intros Hlast Hcur Hge.
  destruct phases as [|first_phase rest] eqn:Hphases.
  { simpl in Hlast. rewrite Hlast in Hcur. discriminate Hcur. }
  rewrite <- Hphases in *.
  assert (Hlen : Z.of_nat (length phases) <> 0) by (rewrite Hphases; simpl; lia).
  assert (Hnext : (current_phase ls + 1) mod Z.of_nat (length phases) = 0).
  { rewrite Hlast. replace (Z.of_nat (length phases) - 1 + 1) with (Z.of_nat (length phases)) by lia.
    apply Z_mod_same_full. }
  assert (Hfirst : py_lookup phases 0 = Some first_phase).
  { unfold py_lookup. rewrite Hphases at 1. simpl Z.ltb. cbv iota.
    destruct (Z.leb_spec (Z.of_nat (length phases)) 0) as [Hle|_]; [lia|].
    rewrite Hphases. reflexivity. }
  assert (Heq : forall st,
             loop_body lights phases existing_tls ls st =
             (simulationStep >>
              apply_phase lights existing_tls first_phase >>
              update_lights lights existing_tls first_phase (step ls - phase_start_time ls) >>
              (if step ls mod 30 =? 0 then status_update existing_tls else ret tt) >>
              ret (mkLoopState 0 (step ls) (step ls + 1))) st).
  { intros st.
    rewrite (loop_body_phase_change lights phases existing_tls ls
               current_phase_data first_phase st Hcur Hge Hlen);
      [rewrite Hnext; reflexivity | rewrite Hnext; exact Hfirst]. }
  exists first_phase. split; [exact Hfirst|]. split; [exact Heq|].
  intros st ls' st' Hbody. rewrite Heq in Hbody.
  apply bind_Ok_inv in Hbody as (_ & st1 & _ & Hbody).
  apply bind_Ok_inv in Hbody as (_ & st2 & _ & Hbody).
  apply bind_Ok_inv in Hbody as (_ & st3 & _ & Hbody).
  apply bind_Ok_inv in Hbody as (_ & st4 & _ & Hbody).
  injection Hbody as <- _. reflexivity.
Qed.

Lemma phase_index_wraps_witness :
  exists first_phase,
    py_lookup PHASES 0 = Some first_phase /\
    (forall st : St Sim,
       loop_body TRAFFIC_LIGHTS PHASES all_ids (mkLoopState 2 120 180) st =
       (simulationStep >>
        apply_phase TRAFFIC_LIGHTS all_ids first_phase >>
        update_lights TRAFFIC_LIGHTS all_ids first_phase (180 - 120) >>
        (if 180 mod 30 =? 0 then status_update all_ids else ret tt) >>
        ret (mkLoopState 0 180 (180 + 1))) st) /\
    (forall (st : St Sim) ls' st',
       loop_body TRAFFIC_LIGHTS PHASES all_ids (mkLoopState 2 120 180) st = (Ok ls', st') ->
       current_phase ls' = 0).
Proof.
  apply (phase_index_wraps (W:=Sim) TRAFFIC_LIGHTS PHASES all_ids (mkLoopState 2 120 180)
           (mkPhase 60 PHASE_3 "Phase 3")); [reflexivity | reflexivity | simpl; lia].
Defined.

(** On the stand-in simulator the body of that tick runs to its end. *)
Example wrap_on_simulator :
  fst (loop_body TRAFFIC_LIGHTS PHASES all_ids (mkLoopState 2 120 180) (mkSt short_run []))
  = Ok (mkLoopState 0 180 181).
Proof. vm_compute. reflexivity. Qed.

(** ** Pushes *)

(** C4, as stated, fails on a tick on which the phase changes: in a run
    over ticks 0 to 60, "rrr" is pushed to T3 at the start and again at
    tick 60, with no other push to T3 in between. *)
Lemma phase_change_repeats_push :
  fst (run_simulation (mkSt short_run [])) = Ok tt /\
  pushed_states "T3" (log (snd (run_simulation (mkSt short_run [])))) = ["rrr"; "rrr"] /\
  has_repeat (pushed_states "T3" (log (snd (run_simulation (mkSt short_run []))))) = true.
Proof. vm_compute. repeat split; reflexivity. Qed.

(** ** The tick budget *)

(** C7, as stated, fails when the engine crashes: the body is entered
    once, far fewer times than the budget, although every answer of
    [getMinExpectedNumber] was positive. *)
Lemma crash_ends_loop_early :
  Z.of_nat (body_runs (log (snd
     (main_loop TRAFFIC_LIGHTS PHASES SIMULATION_TIME (Z.to_nat (SIMULATION_TIME - 0))
                all_ids (mkLoopState 0 0 0) (mkSt crashed []))))) < SIMULATION_TIME /\
  reported_none_left (log (snd
     (main_loop TRAFFIC_LIGHTS PHASES SIMULATION_TIME (Z.to_nat (SIMULATION_TIME - 0))
                all_ids (mkLoopState 0 0 0) (mkSt crashed [])))) = false /\
  log (snd (main_loop TRAFFIC_LIGHTS PHASES SIMULATION_TIME (Z.to_nat (SIMULATION_TIME - 0))
                all_ids (mkLoopState 0 0 0) (mkSt crashed [])))
    = [(CgetMinExpectedNumber, Rnumber 100); (CsimulationStep, Rraised FatalTraCIError)].
Proof. vm_compute. repeat split; reflexivity. Qed.

(** C7, amended: the main loop, entered as [run_simulation] enters it
    and given any amount of fuel that does not cut it short, runs its
    body at most [SIMULATION_TIME] times; it runs it fewer times only
    if [getMinExpectedNumber] answered with a number that is not
    positive, or if a call raised an exception, which ends the
    loop. *)
Theorem main_loop_bound {W : Type} `{Traci W} (fuel : nat) (existing_tls : list string)
    (st : St W) :
  (Z.to_nat (SIMULATION_TIME - step (mkLoopState 0 0 0)) <= fuel)%nat ->
  exists tr,
    log (snd (main_loop TRAFFIC_LIGHTS PHASES SIMULATION_TIME fuel
                existing_tls (mkLoopState 0 0 0) st)) = log st ++ tr /\
    Z.of_nat (body_runs tr) <= SIMULATION_TIME /\
    (Z.of_nat (body_runs tr) < SIMULATION_TIME ->
     reported_none_left tr = true \/
     exists e, fst (main_loop TRAFFIC_LIGHTS PHASES SIMULATION_TIME fuel
                      existing_tls (mkLoopState 0 0 0) st) = Raise e).
Proof.
  intros Hfuel.
  destruct (main_loop_runs TRAFFIC_LIGHTS PHASES SIMULATION_TIME fuel
              existing_tls (mkLoopState 0 0 0) st Hfuel) as (tr & Hlog & Hle & Hfew).
  exists tr. split; [exact Hlog|].
  cbn [step] in Hle, Hfew. rewrite Z.sub_0_r in Hle, Hfew.
  split; [unfold SIMULATION_TIME in *; lia | exact Hfew].
Qed.

Lemma main_loop_bound_witness :
  exists tr,
    log (snd (main_loop TRAFFIC_LIGHTS PHASES SIMULATION_TIME (Z.to_nat 60000)
                all_ids (mkLoopState 0 0 0) (mkSt short_run []))) =
      log (mkSt short_run []) ++ tr /\
    Z.of_nat (body_runs tr) <= SIMULATION_TIME /\
    (Z.of_nat (body_runs tr) < SIMULATION_TIME ->
     reported_none_left tr = true \/
     exists e, fst (main_loop TRAFFIC_LIGHTS PHASES SIMULATION_TIME (Z.to_nat 60000)
                      all_ids (mkLoopState 0 0 0) (mkSt short_run [])) = Raise e).
Proof.
  apply (main_loop_bound (W:=Sim) (Z.to_nat 60000) all_ids (mkSt short_run [])).
  cbn [step]. unfold SIMULATION_TIME. lia.
Defined.

(** ** Teardown *)

Section RunFacts.
Context {W : Type} `{Traci W}.
Variable lights : list (string * Z).
Variable phases : list Phase.
Variable budget : Z.

Lemma take_control_log (keys all_tls existing_tls : list string) :
  emits (take_control keys all_tls existing_tls) (fun _ => True).
Proof.
  revert existing_tls. induction keys as [|tl_id rest IH]; intros existing_tls; simpl.
  - apply emits_ret. exact I.
  - destruct (existsb (String.eqb tl_id) all_tls); [|apply IH].
    apply emits_bind; [apply stretchwise_True | |intros _; apply IH].
    apply emits_invoke. intros r. exact I.
Qed.

Lemma main_loop_log (fuel : nat) (existing_tls : list string) (ls : LoopState) :
  emits (main_loop lights phases budget fuel existing_tls ls) (fun _ => True).
Proof.
  revert ls. induction fuel as [|fuel IH]; intros ls; simpl.
  - apply emits_ret. exact I.
  - destruct (step ls <? budget); [|apply emits_ret; exact I].
    apply emits_bind; [apply stretchwise_True | |].
    + apply emits_invoke. intros r. exact I.
    + intros remaining. destruct (remaining >? 0); [|apply emits_ret; exact I].
      apply emits_bind; [apply stretchwise_True | |intros ls'; apply IH].
      eapply emits_weaken; [|apply loop_body_stretch]. auto.
Qed.

Lemma try_suite_log : emits (try_suite lights phases budget) (fun _ => True).
Proof.
  unfold try_suite.
  apply emits_bind; [apply stretchwise_True | |intros _].
  { apply emits_invoke. intros r. exact I. }
  apply emits_bind; [apply stretchwise_True | |intros all_tls].
  { apply emits_invoke. intros r. exact I. }
  apply emits_bind; [apply stretchwise_True | apply take_control_log |intros existing_tls].
  destruct existing_tls as [|tl_id rest].
  { apply emits_invoke. intros r. exact I. }
  cbv zeta.
  apply emits_bind; [apply stretchwise_True | |intros _].
  { apply emits_invoke. intros r. exact I. }
  apply emits_bind; [apply stretchwise_True | |intros current_phase_data].
  { apply emits_py_index. exact I. }
  apply emits_bind; [apply stretchwise_True | |intros _].
  { eapply emits_weaken; [|apply apply_phase_pushes]. auto. }
  apply emits_bind; [apply stretchwise_True | apply main_loop_log |intros _].
  apply emits_ret. exact I.
Qed.

(** Whatever happens in the [try] suite, [run_simulation] returns
    normally and the last thing it did was to call [close]. *)
Lemma run_simulation_with_closes (st : St W) :
  exists tr r,
    fst (run_simulation_with lights phases budget st) = Ok tt /\
    log (snd (run_simulation_with lights phases budget st)) = log st ++ tr ++ [(Cclose, r)].
Proof.
  unfold run_simulation_with, try_finally, try_except.
  destruct (try_suite_log st) as (tr & Hlog & _).
  assert (Hclose : forall st1 : St W, log st1 = log st ++ tr ->
            exists r,
              fst (let (o, st') := close st1 in
                   match o with
                   | Ok a => (Ok a, st')
                   | Raise _ => ret tt st'
                   end) = Ok tt /\
              log (snd (let (o, st') := close st1 in
                        match o with
                        | Ok a => (Ok a, st')
                        | Raise _ => ret tt st'
                        end)) = log st ++ tr ++ [(Cclose, r)]).
  { intros st1 Hlog1. unfold close, invoke.
    destruct (traci_close (world st1)) as [[[]|e] w']; simpl;
      eexists; (split; [reflexivity | rewrite Hlog1, <- app_assoc; reflexivity]). }
  destruct (try_suite lights phases budget st) as [[[]|e] st1]; simpl in Hlog.
  - destruct (Hclose st1 Hlog) as (r & Hfst & Hsnd). exists tr, r.
    destruct (close st1) as [[[]|e'] st2]; simpl in *; auto.
  - assert (Hh : (match e with
                  | FatalTraCIError => ret tt
                  | OtherException => ret tt
                  end) st1 = (Ok tt, st1)) by (destruct e; reflexivity).
    rewrite Hh.
    destruct (Hclose st1 Hlog) as (r & Hfst & Hsnd). exists tr, r.
    destruct (close st1) as [[[]|e'] st2]; simpl in *; auto.
Qed.

End RunFacts.

(** C9: for every simulator, [run_simulation] ends by calling [close]
    and returns normally, whether the run completed, found no light to
    control, or was cut short by an exception, and whether that last
    [close] succeeds or raises. *)
Theorem close_always_attempted {W : Type} `{Traci W} (st : St W) :
  exists tr r,
    fst (run_simulation st) = Ok tt /\
    log (snd (run_simulation st)) = log st ++ tr ++ [(Cclose, r)].
Proof.
  apply run_simulation_with_closes.
Qed.

(** The exit paths on the stand-in simulator: a run that completes, a
    network without lights and with a failing [close], and a crash of
    the engine in the main loop. *)
Example teardown_after_completion :
  fst (run_simulation (mkSt short_run [])) = Ok tt /\
  last (log (snd (run_simulation (mkSt short_run [])))) = Some (Cclose, Rnone).
Proof. vm_compute. split; reflexivity. Qed.

Example teardown_without_lights :
  run_simulation (mkSt no_lights []) =
  (Ok tt, mkSt no_lights
     [(Cstart ["sumo-gui"; "-c"; "simulation.sumocfg"], Rnone);
      (CgetIDList, Rids []);
      (Cclose, Rraised FatalTraCIError);
      (Cclose, Rraised FatalTraCIError)]).
Proof. vm_compute. reflexivity. Qed.

Example teardown_after_crash :
  fst (run_simulation (mkSt crashing [])) = Ok tt /\
  skipn 13 (log (snd (run_simulation (mkSt crashing [])))) =
    [(CgetMinExpectedNumber, Rnumber 99);
     (CsimulationStep, Rraised FatalTraCIError);
     (Cclose, Rnone)].
Proof. vm_compute. split; reflexivity. Qed.

(** * Further properties *)

(** ** The validator, continued *)

(** X1: whatever state is handed in, the state that comes back for a
    light of [TRAFFIC_LIGHTS] has the length configured for it. *)
Theorem validate_state_length (tl_id state : string) :
  dict_mem TRAFFIC_LIGHTS tl_id = true ->
  len (validate_state tl_id state) = expected_len tl_id.
Proof.
  intros Hmem. rewrite validate_state_unfold.
  destruct (Z.eqb_spec (len state) (expected_len tl_id)) as [Heq|Hne]; simpl negb; cbv iota.
  - exact Heq.
  - destruct (configured_lights tl_id Hmem) as [->|[->|[->|[->| ->]]]]; reflexivity.
Qed.

Lemma validate_state_length_witness :
  len (validate_state "T1" "gggggg") = expected_len "T1".
Proof.
  apply (validate_state_length "T1" "gggggg"). reflexivity.
Defined.

(** X2: validating twice is validating once, for any table of lengths,
    any light id and any state. *)
Theorem validate_state_idempotent (lights : list (string * Z)) (tl_id state : string) :
  validate_state_in lights tl_id (validate_state_in lights tl_id state) =
  validate_state_in lights tl_id state.
Proof.
  unfold validate_state_in.
  set (n := dict_get lights tl_id 0).
  destruct (Z.eqb_spec (len state) n) as [Heq|Hne]; simpl negb; cbv iota.
  - apply Z.eqb_eq in Heq. rewrite Heq. reflexivity.
  - destruct (Z.eqb_spec n 3) as [H3|H3].
    + rewrite H3. reflexivity.
    + destruct (Z.eqb_spec n 2) as [H2|H2].
      * rewrite H2. simpl. reflexivity.
      * destruct (Z.eqb_spec (len "r") n) as [H1|H1]; simpl negb; cbv iota; [reflexivity|].
        destruct (Z.eqb_spec n 3); [contradiction|].
        destruct (Z.eqb_spec n 2); [contradiction|]. reflexivity.
Qed.

(** ** The walk over a pattern, continued *)

(** X3: the walk returns the state of the segment whose time window
    holds the elapsed time: with non-negative durations in front of
    it, a segment is chosen exactly from the total of the segments in
    front of it up to that total plus its own duration. *)
Theorem find_state_window (pre post : list Segment) (state : string) (d elapsed : Z) :
  Forall (fun seg => 0 <= snd seg) pre ->
  pattern_total pre <= elapsed < pattern_total pre + d ->
  find_state (pre ++ (state, d) :: post) elapsed = Some state.
Proof.
  intros Hpos. revert elapsed.
  induction Hpos as [|[s0 d0] pre Hd0 Hpre IH]; intros elapsed Hwin; simpl in *.
  - destruct (Z.ltb_spec elapsed d) as [_|Hge]; [reflexivity | lia].
  - assert (0 <= pattern_total pre).
    { clear -Hpre. induction Hpre as [|[s x] l Hx Hl IHl]; simpl in *; lia. }
    destruct (Z.ltb_spec elapsed d0) as [Hlt|_]; [lia|].
    apply IH. lia.
Qed.

Lemma find_state_window_witness :
  find_state ([("g", 10); ("r", 15)] ++ ("g", 25) :: [("y", 5)]) 30 = Some "g".
Proof.
  apply (find_state_window [("g", 10); ("r", 15)] [("y", 5)] "g" 25 30).
  - repeat constructor; simpl; lia.
  - simpl. lia.
Defined.

(** X4: for a pattern with non-negative durations and an elapsed time
    that is not negative, the walk finds a segment if and only if the
    elapsed time is below the total of the pattern. *)
Theorem find_state_iff_below_total (pattern : list Segment) (elapsed : Z) :
  Forall (fun seg => 0 <= snd seg) pattern ->
  0 <= elapsed ->
  (is_Some (find_state pattern elapsed) <-> elapsed < pattern_total pattern).
Proof.
  intros Hpos Hel. split.
  - intros Hsome. destruct (Z.lt_ge_cases elapsed (pattern_total pattern)) as [Hlt|Hge];
      [exact Hlt|].
    rewrite (find_state_beyond pattern elapsed Hpos Hge) in Hsome.
    destruct Hsome as [x Hx]. discriminate Hx.
  - intros Hlt. apply find_state_within. lia.
Qed.

Lemma find_state_iff_below_total_witness :
  is_Some (find_state [("gg", 55); ("yy", 5)] 57) <-> 57 < pattern_total [("gg", 55); ("yy", 5)].
Proof.
  apply (find_state_iff_below_total [("gg", 55); ("yy", 5)] 57).
  - repeat constructor; simpl; lia.
  - lia.
Defined.

(** ** Taking control of the lights *)

Section InitFacts.
Context {W : Type} `{Traci W}.
Variable lights : list (string * Z).
Variable phases : list Phase.
Variable budget : Z.


Lemma take_control_none (keys all_tls existing_tls : list string) (st : St W) :
  present_lights keys all_tls = [] ->
  take_control keys all_tls existing_tls st = (Ok existing_tls, st).
Proof.
  induction keys as [|tl_id rest IH]; simpl; intros Hnone; [reflexivity|].
  destruct (existsb (String.eqb tl_id) all_tls); [discriminate Hnone | apply IH, Hnone].
Qed.

Lemma bind_Ok {A B : Type} (m : M W A) (k : A -> M W B) (st st' : St W) (a : A) :
  m st = (Ok a, st') -> bind m k st = k a st'.
Proof. intros Hm. unfold bind. rewrite Hm. reflexivity. Qed.

Lemma bind_Raise {A B : Type} (m : M W A) (k : A -> M W B) (st st' : St W) (e : exn) :
  m st = (Raise e, st') -> bind m k st = (Raise e, st').
Proof. intros Hm. unfold bind. rewrite Hm. reflexivity. Qed.

Lemma invoke_Ok {A : Type} (c : call) (enc : A -> reply) (op : W -> outcome A * W)
    (st : St W) (a : A) (w' : W) :
  op (world st) = (Ok a, w') ->
  invoke c enc op st = (Ok a, mkSt w' (log st ++ [(c, enc a)])).
Proof. intros Hop. unfold invoke. rewrite Hop. reflexivity. Qed.

Lemma invoke_Raise {A : Type} (c : call) (enc : A -> reply) (op : W -> outcome A * W)
    (st : St W) (e : exn) (w' : W) :
  op (world st) = (Raise e, w') ->
  invoke c enc op st = (Raise e, mkSt w' (log st ++ [(c, Rraised e)])).
Proof. intros Hop. unfold invoke. rewrite Hop. reflexivity. Qed.

Lemma close_log (st : St W) :
  exists r, log (snd (close st)) = log st ++ [(Cclose, r)].
Proof.
  unfold close, invoke. destruct (traci_close (world st)) as [r w']. eexists. reflexivity.
Qed.

(** [run_simulation] in terms of its [try] suite: whatever the suite
    did, one more [close] follows and the outcome is normal. *)
Lemma run_simulation_with_suite (st : St W) :
  exists r,
    fst (run_simulation_with lights phases budget st) = Ok tt /\
    log (snd (run_simulation_with lights phases budget st)) =
      log (snd (try_suite lights phases budget st)) ++ [(Cclose, r)].
Proof.
  unfold run_simulation_with, try_finally, try_except.
  destruct (try_suite lights phases budget st) as [[[]|e] st1]; cbn [snd].
  - destruct (close_log st1) as [r Hr]. exists r.
    destruct (close st1) as [[[]|e'] st2]; cbn [fst snd ret] in *; auto.
  - assert (Hh : (match e with
                  | FatalTraCIError => ret tt
                  | OtherException => ret tt
                  end) st1 = (Ok tt, st1)) by (destruct e; reflexivity).
    rewrite Hh. destruct (close_log st1) as [r Hr]. exists r.
    destruct (close st1) as [[[]|e'] st2]; cbn [fst snd ret] in *; auto.
Qed.

(** X6: when the simulator starts and none of the configured lights is
    in its list, the run consists of four calls: [start], [getIDList],
    the [close] of the "No traffic lights found" branch and the
    [close] of the [finally] suite.  No simulation step is made, and
    [run_simulation] returns normally whatever the two [close] calls
    reply. *)
Theorem run_without_lights (st : St W) (ids : list string) (w1 w2 : W) :
  traci_start sumo_cmd (world st) = (Ok tt, w1) ->
  traci_getIDList w1 = (Ok ids, w2) ->
  present_lights (dict_keys lights) ids = [] ->
  exists r1 r2,
    fst (run_simulation_with lights phases budget st) = Ok tt /\
    log (snd (run_simulation_with lights phases budget st)) =
      log st ++ [(Cstart sumo_cmd, Rnone); (CgetIDList, Rids ids);
                 (Cclose, r1); (Cclose, r2)].
Proof.
  intros Hstart Hids Hnone.
  destruct (run_simulation_with_suite st) as (r2 & Hres & Hlog).
  assert (Hsuite : exists r1,
             log (snd (try_suite lights phases budget st)) =
             log st ++ [(Cstart sumo_cmd, Rnone); (CgetIDList, Rids ids); (Cclose, r1)]).
  { unfold try_suite, start, getIDList.
    rewrite (bind_Ok _ _ _ _ _ (invoke_Ok _ _ _ _ _ _ Hstart)).
    rewrite (bind_Ok _ _ _ _ _ (invoke_Ok (A:=list string) CgetIDList Rids traci_getIDList
                                   (mkSt w1 _) ids w2 Hids)).
    rewrite (bind_Ok _ _ _ _ _ (take_control_none _ _ _ _ Hnone)).
    cbv beta iota. cbn [log].
    destruct (close_log (mkSt w2 ((log st ++ [(Cstart sumo_cmd, Rnone)]) ++
                                  [(CgetIDList, Rids ids)]))) as [r1 Hr1].
    exists r1. rewrite Hr1. cbn [log]. rewrite <- !app_assoc. reflexivity. }
  destruct Hsuite as [r1 Hsuite].
  exists r1, r2. split; [exact Hres|].
  rewrite Hlog, Hsuite, <- app_assoc. reflexivity.
Qed.

(** X7: when [traci.start] raises, the only other call of the run is
    the [close] of the [finally] suite, and [run_simulation] returns
    normally. *)
Theorem run_without_simulator (st : St W) (e : exn) (w1 : W) :
  traci_start sumo_cmd (world st) = (Raise e, w1) ->
  exists r,
    fst (run_simulation_with lights phases budget st) = Ok tt /\
    log (snd (run_simulation_with lights phases budget st)) =
      log st ++ [(Cstart sumo_cmd, Rraised e); (Cclose, r)].
Proof.
  intros Hstart.
  destruct (run_simulation_with_suite st) as (r & Hres & Hlog).
  exists r. split; [exact Hres|].
  rewrite Hlog. unfold try_suite, start.
  rewrite (bind_Raise _ _ _ _ _ (invoke_Raise _ _ _ _ _ _ Hstart)).
  cbn [snd log]. rewrite <- app_assoc. reflexivity.
Qed.


End InitFacts.

Lemma run_without_lights_witness :
  exists r1 r2,
    fst (run_simulation_with TRAFFIC_LIGHTS PHASES SIMULATION_TIME (mkSt no_lights [])) = Ok tt /\
    log (snd (run_simulation_with TRAFFIC_LIGHTS PHASES SIMULATION_TIME (mkSt no_lights []))) =
      log (mkSt no_lights []) ++
      [(Cstart sumo_cmd, Rnone); (CgetIDList, Rids []); (Cclose, r1); (Cclose, r2)].
Proof.
  apply (run_without_lights TRAFFIC_LIGHTS PHASES SIMULATION_TIME (mkSt no_lights []) []
           no_lights no_lights); reflexivity.
Defined.

Lemma run_without_simulator_witness :
  exists r,
    fst (run_simulation_with TRAFFIC_LIGHTS PHASES SIMULATION_TIME (mkSt no_sumo [])) = Ok tt /\
    log (snd (run_simulation_with TRAFFIC_LIGHTS PHASES SIMULATION_TIME (mkSt no_sumo []))) =
      log (mkSt no_sumo []) ++ [(Cstart sumo_cmd, Rraised FatalTraCIError); (Cclose, r)].
Proof.
  apply (run_without_simulator TRAFFIC_LIGHTS PHASES SIMULATION_TIME (mkSt no_sumo [])
           FatalTraCIError no_sumo); reflexivity.
Defined.

(** ** The status update *)

Lemma insert_sorted_perm (x : string) (l : list string) :
  Permutation (insert_sorted x l) (x :: l).
Proof.
  induction l as [|y l IH]; simpl; [reflexivity|].
  destruct (String.leb x y); [reflexivity|].
  rewrite IH. apply perm_swap.
Qed.

Lemma sorted_perm (l : list string) : Permutation (sorted l) l.
Proof.
  unfold sorted. induction l as [|x l IH]; simpl; [reflexivity|].
  rewrite insert_sorted_perm, IH. reflexivity.
Qed.

Lemma insert_sorted_hd (x y : string) (l : list string) :
  String.leb y x = true ->
  HdRel (fun a b => String.leb a b = true) y l ->
  HdRel (fun a b => String.leb a b = true) y (insert_sorted x l).
Proof.
  intros Hyx Hhd. destruct l as [|z l]; simpl.
  - constructor. exact Hyx.
  - destruct (String.leb x z); constructor; [exact Hyx|].
    inversion Hhd; assumption.
Qed.

Lemma insert_sorted_ordered (x : string) (l : list string) :
  Sorted (fun a b => String.leb a b = true) l ->
  Sorted (fun a b => String.leb a b = true) (insert_sorted x l).
Proof.
  induction 1 as [|y l Hsorted IH Hhd]; simpl.
  - repeat constructor.
  - destruct (String.leb x y) eqn:Hxy.
    + constructor; [constructor; assumption | constructor; exact Hxy].
    + constructor; [exact IH|].
      apply insert_sorted_hd; [|exact Hhd].
      destruct (String.leb_total x y) as [Hle|Hle]; [congruence | exact Hle].
Qed.

Section StatusFacts.
Context {W : Type} `{Traci W}.

Lemma status_read (tl_id : string) (st : St W) :
  exists r w',
    try_except (getRedYellowGreenState tl_id >> ret tt) (fun _ => ret tt) st =
    (Ok tt, mkSt w' (log st ++ [(CgetRedYellowGreenState tl_id, r)])).
Proof.
  unfold try_except, bind, getRedYellowGreenState, invoke.
  destruct (traci_getRedYellowGreenState tl_id (world st)) as [[state|e] w'];
    do 2 eexists; reflexivity.
Qed.

(** X9: the status update reads every controlled light exactly once,
    in ascending order of the ids, makes no other call, and never
    raises, whatever the reads reply. *)
Theorem status_update_reads_each_light (existing_tls : list string) (st : St W) :
  fst (status_update existing_tls st) = Ok tt /\
  (exists tr,
     log (snd (status_update existing_tls st)) = log st ++ tr /\
     map fst tr = read_calls (sorted existing_tls)) /\
  Permutation (sorted existing_tls) existing_tls /\
  Sorted (fun a b => String.leb a b = true) (sorted existing_tls).
Proof.
  split; [|split; [|split]].
  - unfold status_update. generalize (sorted existing_tls) as l. intros l. revert st.
    induction l as [|tl_id l IH]; intros st; simpl; [reflexivity|].
    destruct (status_read tl_id st) as (r & w' & Hread).
    rewrite (bind_Ok _ _ _ _ _ Hread). apply IH.
  - unfold status_update. generalize (sorted existing_tls) as l. intros l. revert st.
    induction l as [|tl_id l IH]; intros st; simpl.
    + exists []. rewrite app_nil_r. split; reflexivity.
    + destruct (status_read tl_id st) as (r & w' & Hread).
      rewrite (bind_Ok _ _ _ _ _ Hread).
      destruct (IH (mkSt w' (log st ++ [(CgetRedYellowGreenState tl_id, r)])))
        as (tr & Hlog & Hcalls).
      exists ((CgetRedYellowGreenState tl_id, r) :: tr). split.
      * rewrite Hlog. cbn [log]. rewrite <- app_assoc. reflexivity.
      * cbn [map fst read_calls]. rewrite Hcalls. reflexivity.
  - apply sorted_perm.
  - unfold sorted. induction existing_tls as [|x l IH]; simpl.
    + constructor.
    + apply insert_sorted_ordered, IH.
Qed.

End StatusFacts.

(** ** The state of the loop *)

Lemma py_lookup_elem {A : Type} (l : list A) (i : Z) (x : A) :
  py_lookup l i = Some x -> x ∈ l /\ 0 < Z.of_nat (length l).
Proof.
  unfold py_lookup.
  destruct ((_ <? 0) || (_ <=? _)); [discriminate|].
  intros Hlook. split.
  - eapply list_elem_of_lookup_2. exact Hlook.
  - apply lookup_lt_Some in Hlook. lia.
Qed.

Lemma py_lookup_range {A : Type} (l : list A) (i : Z) :
  0 <= i < Z.of_nat (length l) -> is_Some (py_lookup l i).
Proof.
  intros Hi. unfold py_lookup.
  destruct (Z.ltb_spec i 0) as [Hneg|_]; [lia|].
  destruct (Z.ltb_spec i 0) as [Hneg|_]; [lia|].
  destruct (Z.leb_spec (Z.of_nat (length l)) i) as [Hbig|_]; [lia|].
  simpl. apply lookup_lt_is_Some. lia.
Qed.

Section LoopStateFacts.
Context {W : Type} `{Traci W}.
Variable lights : list (string * Z).
Variable phases : list Phase.
Variable budget : Z.

(** What a run of the loop body that reaches its end does to the three
    local variables. *)
Lemma loop_body_Ok_inv (existing_tls : list string) (ls ls' : LoopState) (st st' : St W) :
  loop_body lights phases existing_tls ls st = (Ok ls', st') ->
  exists current_phase_data,
    py_lookup phases (current_phase ls) = Some current_phase_data /\
    step ls' = step ls + 1 /\
    ((duration current_phase_data <= step ls - phase_start_time ls /\
      current_phase ls' = (current_phase ls + 1) mod Z.of_nat (length phases) /\
      phase_start_time ls' = step ls) \/
     (step ls - phase_start_time ls < duration current_phase_data /\
      current_phase ls' = current_phase ls /\
      phase_start_time ls' = phase_start_time ls)).
Proof.
  unfold loop_body. cbv zeta. intros Hb.
  apply bind_Ok_inv in Hb as (_ & st1 & _ & Hb).
  apply bind_Ok_inv in Hb as (cpd & st2 & Hidx & Hb).
  apply bind_Ok_inv in Hb as ([[cp pst] cpd'] & st3 & Hsw & Hb).
  apply bind_Ok_inv in Hb as (_ & st4 & _ & Hb).
  apply bind_Ok_inv in Hb as (_ & st5 & _ & Hb).
  injection Hb as <- _. cbn [current_phase phase_start_time step].
  unfold py_index in Hidx.
  destruct (py_lookup phases (current_phase ls)) as [cpd0|] eqn:Hlook; [|discriminate Hidx].
  injection Hidx as -> _.
  exists cpd. split; [reflexivity|]. split; [reflexivity|].
  destruct (Z.geb_spec (step ls - phase_start_time ls) (duration cpd)) as [Hge|Hlt].
  - left.
    apply bind_Ok_inv in Hsw as (m & st6 & Hmod & Hsw).
    apply bind_Ok_inv in Hsw as (cpd1 & st7 & _ & Hsw).
    apply bind_Ok_inv in Hsw as (_ & st8 & _ & Hsw).
    injection Hsw as <- <- _ _.
    unfold py_mod in Hmod.
    destruct (Z.of_nat (length phases) =? 0); [discriminate Hmod|].
    injection Hmod as <- _. split; [lia|]. split; reflexivity.
  - right. injection Hsw as <- <- _ _. auto.
Qed.

(** A property of the loop state that every complete run of the body
    keeps holds when the loop ends. *)
Lemma main_loop_invariant (Inv : LoopState -> Prop) (existing_tls : list string) :
  (forall ls ls' st st',
     Inv ls -> loop_body lights phases existing_tls ls st = (Ok ls', st') -> Inv ls') ->
  forall fuel ls ls' st st',
    Inv ls ->
    main_loop lights phases budget fuel existing_tls ls st = (Ok ls', st') ->
    Inv ls'.
Proof.
  intros Hkeep fuel. induction fuel as [|fuel IH]; intros ls ls' st st' Hinv Hloop.
  - injection Hloop as <- _. exact Hinv.
  - rewrite main_loop_unfold in Hloop.
    destruct (step ls <? budget); [|injection Hloop as <- _; exact Hinv].
    destruct (getMinExpectedNumber st) as [[remaining|e] st1]; [|discriminate Hloop].
    destruct (remaining >? 0); [|injection Hloop as <- _; exact Hinv].
    destruct (loop_body lights phases existing_tls ls st1) as [[ls1|e] st2] eqn:Hbody;
      [|discriminate Hloop].
    eapply IH; [|exact Hloop]. eapply Hkeep; eassumption.
Qed.

(** X10: the main loop keeps the phase index a valid index of the
    schedule and the phase start at or before the current step: when
    it is entered with such a state and ends normally, the state it
    leaves is again such a state, and [step] has not decreased. *)
Theorem main_loop_state_in_range (fuel : nat) (existing_tls : list string)
    (ls ls' : LoopState) (st st' : St W) :
  0 <= current_phase ls < Z.of_nat (length phases) ->
  phase_start_time ls <= step ls ->
  main_loop lights phases budget fuel existing_tls ls st = (Ok ls', st') ->
  0 <= current_phase ls' < Z.of_nat (length phases) /\
  phase_start_time ls' <= step ls' /\
  step ls <= step ls'.
Proof.
  intros Hcp Hpst Hloop.
  refine (main_loop_invariant
            (fun l => 0 <= current_phase l < Z.of_nat (length phases) /\
                      phase_start_time l <= step l /\ step ls <= step l)
            existing_tls _ fuel ls ls' st st' _ Hloop); [|repeat split; lia].
  clear. intros l l' s s' (Hcp & Hpst & Hstep) Hbody.
  apply loop_body_Ok_inv in Hbody as (cpd & _ & Hs & [(_ & Hc & Hp)|(_ & Hc & Hp)]).
  - rewrite Hc, Hp, Hs. split; [apply Z.mod_pos_bound; lia | lia].
  - rewrite Hc, Hp, Hs. lia.
Qed.

(** X11: when all phases of the schedule last [d] ticks, the state the
    main loop leaves after tick [s] (that is, with [step = s + 1]) has
    the phase index [(s / d) mod N] and the phase start [d * (s / d)]:
    the phases follow each other every [d] ticks and the cycle repeats
    every [N * d] ticks. *)
Theorem uniform_schedule_phase (fuel : nat) (existing_tls : list string) (d : Z)
    (ls' : LoopState) (st st' : St W) :
  0 < d ->
  Forall (fun phase => duration phase = d) phases ->
  main_loop lights phases budget fuel existing_tls (mkLoopState 0 0 0) st = (Ok ls', st') ->
  0 < step ls' ->
  current_phase ls' = phase_of_tick d (Z.of_nat (length phases)) (step ls' - 1) /\
  phase_start_time ls' = phase_start_of_tick d (step ls' - 1).
Proof.
  intros Hd Hall Hloop Hpos.
  pose (Inv := fun l : LoopState =>
    0 <= step l /\
    (step l = 0 -> current_phase l = 0 /\ phase_start_time l = 0) /\
    (0 < step l ->
     current_phase l = phase_of_tick d (Z.of_nat (length phases)) (step l - 1) /\
     phase_start_time l = phase_start_of_tick d (step l - 1))).
  assert (Hinv : Inv ls').
  { refine (main_loop_invariant Inv existing_tls _ fuel (mkLoopState 0 0 0) ls' st st' _ Hloop);
      unfold Inv;
      [|split; [cbn; lia | split; [intros _; split; reflexivity | cbn; intros Hc; lia]]].
    clear - Hd Hall. intros l l' s s' (Hstep & Hzero & Hlater) Hbody.
    apply loop_body_Ok_inv in Hbody as (cpd & Hlook & Hs & Hcase).
    apply py_lookup_elem in Hlook as [Hin Hlen].
    assert (Hdur : duration cpd = d).
    { rewrite Forall_forall in Hall. apply Hall, Hin. }
    rewrite Hdur in Hcase.
    split; [lia|]. split; [lia|]. intros _.
    replace (step l' - 1) with (step l) by lia.
    unfold phase_of_tick, phase_start_of_tick in *.
    destruct (Z.eq_dec (step l) 0) as [H0|Hn0].
    - destruct (Hzero H0) as [Hc Hp]. rewrite H0 in *.
      destruct Hcase as [(Hge & _ & _)|(_ & Hc' & Hp')]; [lia|].
      rewrite Hc', Hp', Hc, Hp, Z.div_0_l, Z.mod_0_l by lia. lia.
    - destruct (Hlater ltac:(lia)) as [Hc Hp].
      pose proof (Z.div_mod (step l - 1) d ltac:(lia)) as Hdm.
      pose proof (Z.mod_pos_bound (step l - 1) d Hd) as Hr.
      set (q := (step l - 1) / d) in *. set (r := (step l - 1) mod d) in *.
      destruct Hcase as [(Hge & Hc' & Hp')|(Hlt & Hc' & Hp')].
      + assert (Hq : step l / d = q + 1).
        { symmetry. apply (Z.div_unique (step l) d (q + 1) 0); lia. }
        rewrite Hc', Hp', Hc, Hq, Zplus_mod_idemp_l. split; [reflexivity | lia].
      + assert (Hq : step l / d = q).
        { symmetry. apply (Z.div_unique (step l) d q (r + 1)); lia. }
        rewrite Hc', Hp', Hc, Hp, Hq. split; reflexivity. }
  destruct Hinv as (_ & _ & Hlater). apply Hlater, Hpos.
Qed.

End LoopStateFacts.

Lemma main_loop_state_in_range_witness :
  0 <= current_phase (mkLoopState 1 60 62) < Z.of_nat (length PHASES) /\
  phase_start_time (mkLoopState 1 60 62) <= step (mkLoopState 1 60 62) /\
  step (mkLoopState 0 0 0) <= step (mkLoopState 1 60 62).
Proof.
  apply (main_loop_state_in_range (W:=Sim) TRAFFIC_LIGHTS PHASES 200 200%nat all_ids
           (mkLoopState 0 0 0) (mkLoopState 1 60 62) (mkSt short_run [])
           (snd (main_loop TRAFFIC_LIGHTS PHASES 200 200 all_ids (mkLoopState 0 0 0)
                   (mkSt short_run [])))).
  - simpl. lia.
  - simpl. lia.
  - vm_compute. reflexivity.
Defined.

Lemma uniform_schedule_phase_witness :
  current_phase (mkLoopState 1 60 62)
    = phase_of_tick 60 (Z.of_nat (length PHASES)) (step (mkLoopState 1 60 62) - 1) /\
  phase_start_time (mkLoopState 1 60 62)
    = phase_start_of_tick 60 (step (mkLoopState 1 60 62) - 1).
Proof.
  apply (uniform_schedule_phase (W:=Sim) TRAFFIC_LIGHTS PHASES 200 200%nat all_ids 60
           (mkLoopState 1 60 62) (mkSt short_run [])
           (snd (main_loop TRAFFIC_LIGHTS PHASES 200 200 all_ids (mkLoopState 0 0 0)
                   (mkSt short_run [])))).
  - lia.
  - repeat constructor.
  - vm_compute. reflexivity.
  - simpl. lia.
Defined.

(** ** How the main loop ends *)

Section LoopExitFacts.
Context {W : Type} `{Traci W}.
Variable lights : list (string * Z).
Variable phases : list Phase.
Variable budget : Z.

(** X12: when the main loop ends normally, [step] has grown by exactly
    the number of times the body ran (the count that "Simulation
    completed after ... steps" reports), it has not passed the budget,
    and if it is below the budget then [getMinExpectedNumber] answered
    with a number that is not positive. *)
Theorem main_loop_normal_exit (fuel : nat) (existing_tls : list string)
    (ls ls' : LoopState) (st st' : St W) :
  (Z.to_nat (budget - step ls) <= fuel)%nat ->
  main_loop lights phases budget fuel existing_tls ls st = (Ok ls', st') ->
  exists tr,
    log st' = log st ++ tr /\
    Z.of_nat (body_runs tr) = step ls' - step ls /\
    (step ls' < budget -> reported_none_left tr = true) /\
    (step ls <= budget -> step ls' <= budget).
Proof.
  revert ls st. induction fuel as [|fuel IH]; intros ls st Hfuel Hloop.
  - injection Hloop as <- <-. exists []. rewrite app_nil_r.
    split; [reflexivity|]. split; [simpl; lia|]. split; [lia | auto].
  - rewrite main_loop_unfold in Hloop.
    destruct (Z.ltb_spec (step ls) budget) as [Hlt|Hge].
    + destruct (getMinExpectedNumber st) as [[remaining|e] st1] eqn:Hmin;
        [|discriminate Hloop].
      apply getMinExpectedNumber_log in Hmin.
      destruct (remaining >? 0) eqn:Hrem.
      * destruct (loop_body_stretch lights phases existing_tls ls st1)
          as (trb & Hlogb & (ev & ta & tb & -> & Hev & Hta & [_ Htb] & _)).
        assert (Hruns : body_runs (ev :: ta ++ tb) = 1%nat).
        { cbn [body_runs]. rewrite Hev, body_runs_app, (pushes_no_step ta Hta), Htb.
          reflexivity. }
        destruct (loop_body lights phases existing_tls ls st1) as [[ls1|e] st2] eqn:Hbody;
          [|discriminate Hloop].
        simpl in Hlogb.
        pose proof (loop_body_step _ _ _ _ _ _ _ Hbody) as Hstep.
        destruct (IH ls1 st2 ltac:(lia) Hloop) as (tr & Hlog & Hcount & Hrep & Hmax).
        exists ([(CgetMinExpectedNumber, Rnumber remaining)] ++ (ev :: ta ++ tb) ++ tr).
        split; [|split; [|split]].
        -- rewrite Hlog, Hlogb, Hmin, <- !app_assoc. reflexivity.
        -- rewrite !body_runs_app, Hruns. simpl body_runs. lia.
        -- intros Hbelow. rewrite !reported_none_left_app, (Hrep Hbelow), !orb_true_r.
           reflexivity.
        -- intros _. apply Hmax. lia.
      * injection Hloop as <- <-.
        exists [(CgetMinExpectedNumber, Rnumber remaining)].
        split; [exact Hmin|]. split; [simpl; lia|]. split; [|auto].
        intros _. simpl. rewrite Hrem. reflexivity.
    + injection Hloop as <- <-. exists []. rewrite app_nil_r.
      split; [reflexivity|]. split; [simpl; lia|]. split; [lia | auto].
Qed.

End LoopExitFacts.

Lemma main_loop_normal_exit_witness :
  exists tr,
    log (snd (main_loop TRAFFIC_LIGHTS PHASES 200 200 all_ids (mkLoopState 0 0 0)
                (mkSt short_run []))) = log (mkSt short_run []) ++ tr /\
    Z.of_nat (body_runs tr) = step (mkLoopState 1 60 62) - step (mkLoopState 0 0 0) /\
    (step (mkLoopState 1 60 62) < 200 -> reported_none_left tr = true) /\
    (step (mkLoopState 0 0 0) <= 200 -> step (mkLoopState 1 60 62) <= 200).
Proof.
  apply (main_loop_normal_exit (W:=Sim) TRAFFIC_LIGHTS PHASES 200 200%nat all_ids
           (mkLoopState 0 0 0) (mkLoopState 1 60 62) (mkSt short_run [])).
  - vm_compute. lia.
  - vm_compute. reflexivity.
Defined.

(** ** What a whole run never does *)

Lemma keys_configured {A : Type} (d : list (string * A)) :
  Forall (fun key => dict_mem d key = true) (dict_keys d).
Proof.
  induction d as [|[k v] d IH]; simpl; constructor.
  - unfold dict_mem. simpl. rewrite String.eqb_refl. reflexivity.
  - eapply Forall_impl; [exact IH|].
    intros key Hkey. unfold dict_mem in *. simpl. rewrite Hkey. apply orb_true_r.
Qed.

Lemma present_lights_Forall (P : string -> Prop) (keys all_tls : list string) :
  Forall P keys -> Forall P (present_lights keys all_tls).
Proof.
  unfold present_lights. induction 1 as [|key keys Hkey Hkeys IH]; simpl; [constructor|].
  destruct (existsb (String.eqb key) all_tls); [constructor; assumption | exact IH].
Qed.

Lemma pushed_length_ok (tl_id state : string) :
  dict_mem TRAFFIC_LIGHTS tl_id = true ->
  (len (validate_state_in TRAFFIC_LIGHTS tl_id state) =? expected_len tl_id) = true.
Proof.
  intros Hmem. apply Z.eqb_eq.
  change (validate_state_in TRAFFIC_LIGHTS tl_id state) with (validate_state tl_id state).
  rewrite validate_state_unfold.
  destruct (Z.eqb_spec (len state) (expected_len tl_id)) as [Heq|Hne]; simpl negb; cbv iota.
  - exact Heq.
  - destruct (configured_lights tl_id Hmem) as [->|[->|[->|[->| ->]]]]; reflexivity.
Qed.

Lemma step_first_seen (tr : list event) : step_first true tr = true.
Proof.
  induction tr as [|ev tr IH]; simpl; [reflexivity|].
  rewrite IH. destruct (is_push ev); reflexivity.
Qed.

Lemma step_first_app (pre post : list event) :
  forallb (fun ev => negb (is_push ev)) pre = true ->
  step_first false post = true ->
  step_first false (pre ++ post) = true.
Proof.
  intros Hpre Hpost. induction pre as [|ev pre IH]; simpl in *; [exact Hpost|].
  apply andb_prop in Hpre as [Hev Hrest].
  destruct (is_push ev); [discriminate Hev|]. simpl.
  destruct (is_step ev); [apply step_first_seen | apply IH, Hrest].
Qed.

Lemma step_first_snoc (seen : bool) (tr : list event) (ev : event) :
  is_push ev = false ->
  step_first seen tr = true ->
  step_first seen (tr ++ [ev]) = true.
Proof.
  intros Hev. revert seen. induction tr as [|ev0 tr IH]; intros seen Htr; simpl in *.
  - rewrite Hev. reflexivity.
  - apply andb_prop in Htr as [H0 Hrest]. rewrite H0. simpl. apply IH, Hrest.
Qed.

Section WholeRun.
Context {W : Type} `{Traci W}.
Variable phases : list Phase.
Variable budget : Z.

Lemma emits_bind_post {A B : Type} (m : M W A) (k : A -> M W B)
    (P : list event -> Prop) (Q : A -> Prop) :
  stretchwise P ->
  emits m P ->
  (forall st a st', m st = (Ok a, st') -> Q a) ->
  (forall a, Q a -> emits (k a) P) ->
  emits (bind m k) P.
Proof.
  intros [Hnil Happ] Hm Hpost Hk st. unfold bind.
  destruct (Hm st) as (tr1 & Hlog1 & HP1).
  destruct (m st) as [[a|e] st1] eqn:Hres; simpl in Hlog1.
  - destruct (Hk a (Hpost st a st1 Hres) st1) as (tr2 & Hlog2 & HP2).
    exists (tr1 ++ tr2). rewrite Hlog2, Hlog1, app_assoc. auto.
  - exists tr1. auto.
Qed.

Lemma emits_for_each_in {A : Type} (l : list A) (body : A -> M W unit)
    (P : list event -> Prop) :
  stretchwise P ->
  Forall (fun x => emits (body x) P) l -> emits (for_each l body) P.
Proof.
  intros HP. induction 1 as [|x l Hx Hl IH]; simpl.
  - apply emits_ret, HP.
  - apply emits_bind; auto.
Qed.

(** The loop body and the main loop add to the log what their parts
    add. *)
Lemma loop_body_emits (lights : list (string * Z)) (existing_tls : list string)
    (ls : LoopState) (P : list event -> Prop) :
  stretchwise P ->
  (forall r, P [(CsimulationStep, r)]) ->
  (forall cpd, emits (apply_phase lights existing_tls cpd) P) ->
  (forall cpd e, emits (update_lights lights existing_tls cpd e) P) ->
  emits (status_update existing_tls) P ->
  emits (loop_body lights phases existing_tls ls) P.
Proof.
  intros HP Hstep Happly Hupdate Hstatus.
  unfold loop_body. cbv zeta.
  apply emits_bind; [exact HP | apply emits_invoke, Hstep | intros _].
  apply emits_bind; [exact HP | apply emits_py_index, HP | intros cpd].
  apply emits_bind; [exact HP | |].
  - destruct (_ >=? _); [|apply emits_ret, HP].
    apply emits_bind; [exact HP | |intros m].
    { unfold py_mod. destruct (_ =? 0); [apply emits_raise | apply emits_ret]; apply HP. }
    apply emits_bind; [exact HP | apply emits_py_index, HP | intros cpd'].
    apply emits_bind; [exact HP | apply Happly | intros _]. apply emits_ret, HP.
  - intros [[cp pst] cpd'].
    apply emits_bind; [exact HP | apply Hupdate | intros _].
    apply emits_bind; [exact HP | | intros _; apply emits_ret, HP].
    destruct (_ =? 0); [exact Hstatus | apply emits_ret, HP].
Qed.

Lemma main_loop_emits (lights : list (string * Z)) (fuel : nat)
    (existing_tls : list string) (ls : LoopState) (P : list event -> Prop) :
  stretchwise P ->
  (forall r, P [(CgetMinExpectedNumber, r)]) ->
  (forall ls0, emits (loop_body lights phases existing_tls ls0) P) ->
  emits (main_loop lights phases budget fuel existing_tls ls) P.
Proof.
  intros HP Hmin Hbody. revert ls. induction fuel as [|fuel IH]; intros ls; simpl.
  - apply emits_ret, HP.
  - destruct (step ls <? budget); [|apply emits_ret, HP].
    apply emits_bind; [exact HP | apply emits_invoke, Hmin | intros remaining].
    destruct (remaining >? 0); [|apply emits_ret, HP].
    apply emits_bind; [exact HP | apply Hbody | intros ls'; apply IH].
Qed.

Lemma take_control_result (keys all_tls existing_tls l : list string) (st st' : St W) :
  take_control keys all_tls existing_tls st = (Ok l, st') ->
  l = existing_tls ++ present_lights keys all_tls.
Proof.
  revert existing_tls st. induction keys as [|tl_id rest IH]; intros existing_tls st; simpl.
  - intros Hres. injection Hres as <- _. rewrite app_nil_r. reflexivity.
  - destruct (existsb (String.eqb tl_id) all_tls); [|apply IH].
    intros Hres. apply bind_Ok_inv in Hres as (_ & st1 & _ & Hres).
    apply IH in Hres. rewrite Hres, <- app_assoc. reflexivity.
Qed.

Lemma take_control_targets (keys all_tls existing_tls : list string) :
  Forall (fun key => dict_mem TRAFFIC_LIGHTS key = true) keys ->
  emits (take_control keys all_tls existing_tls)
        (fun tr => forallb well_targeted tr = true).
Proof.
  intros Hkeys. revert existing_tls.
  induction Hkeys as [|tl_id rest Hkey Hrest IH]; intros existing_tls; simpl.
  - apply emits_ret. reflexivity.
  - destruct (existsb (String.eqb tl_id) all_tls); [|apply IH].
    apply emits_bind; [apply stretchwise_forallb | |intros _; apply IH].
    apply emits_invoke. intros r. cbn [forallb]. unfold well_targeted. cbn [fst]. rewrite Hkey. reflexivity.
Qed.

Lemma controlled_targets (existing_tls : list string) (ls : LoopState) (fuel : nat) :
  Forall (fun tl_id => dict_mem TRAFFIC_LIGHTS tl_id = true) existing_tls ->
  (forall cpd, emits (apply_phase TRAFFIC_LIGHTS existing_tls cpd)
                     (fun tr => forallb well_targeted tr = true)) /\
  emits (main_loop TRAFFIC_LIGHTS phases budget fuel existing_tls ls)
        (fun tr => forallb well_targeted tr = true).
Proof.
  intros Hconf.
  pose proof (stretchwise_forallb well_targeted) as HP.
  assert (Hget : forall tl_id r, dict_mem TRAFFIC_LIGHTS tl_id = true ->
             forallb well_targeted [(CgetRedYellowGreenState tl_id, r)] = true).
  { intros tl_id r Hmem. cbn [forallb]. unfold well_targeted. cbn [fst]. rewrite Hmem. reflexivity. }
  assert (Hset : forall tl_id state r, dict_mem TRAFFIC_LIGHTS tl_id = true ->
             forallb well_targeted
               [(CsetRedYellowGreenState tl_id (validate_state_in TRAFFIC_LIGHTS tl_id state), r)]
             = true).
  { intros tl_id state r Hmem. cbn [forallb]. unfold well_targeted. cbn [fst].
    rewrite Hmem, (pushed_length_ok tl_id state Hmem). reflexivity. }
  assert (Happly : forall cpd, emits (apply_phase TRAFFIC_LIGHTS existing_tls cpd)
                                     (fun tr => forallb well_targeted tr = true)).
  { intros cpd. unfold apply_phase. apply emits_for_each_in; [exact HP|].
    eapply Forall_impl; [exact Hconf|]. intros tl_id Hmem. cbv beta.
    destruct (patterns cpd !! tl_id) as [[|[state d] pattern]|];
      try (apply emits_ret; reflexivity).
    apply emits_invoke. intros r. apply Hset, Hmem. }
  split; [exact Happly|].
  apply main_loop_emits; [exact HP | reflexivity |]. intros ls0.
  apply loop_body_emits; [exact HP | reflexivity | exact Happly | |].
  - intros cpd e. unfold update_lights. apply emits_for_each_in; [exact HP|].
    eapply Forall_impl; [exact Hconf|]. intros tl_id Hmem. cbv beta.
    destruct (patterns cpd !! tl_id) as [pattern|]; [|apply emits_ret; reflexivity].
    revert e. induction pattern as [|[state d] pattern IH]; intros e; simpl.
    + apply emits_ret. reflexivity.
    + destruct (e <? d); [|apply IH]. cbv zeta.
      apply emits_bind; [exact HP | apply emits_invoke; intros r; apply Hget, Hmem |].
      intros current_state. destruct (negb _); [|apply emits_ret; reflexivity].
      apply emits_invoke. intros r. apply Hset, Hmem.
  - unfold status_update. apply emits_for_each_in; [exact HP|].
    eapply Forall_impl;
      [exact (Permutation_Forall (Permutation_sym (sorted_perm existing_tls)) Hconf)|].
    intros tl_id Hmem. cbv beta.
    apply emits_try_except; [exact HP | |intros e; apply emits_ret; reflexivity].
    apply emits_bind; [exact HP | apply emits_invoke; intros r; apply Hget, Hmem |].
    intros _. apply emits_ret. reflexivity.
Qed.

(** X13: in a run with the lengths of [TRAFFIC_LIGHTS], whatever the
    schedule, the budget and the simulator, every call that names a
    light ([setProgram], the reads and the pushes) names a light that
    has an entry in [TRAFFIC_LIGHTS], and every state that is pushed
    has the length configured for its light. *)
Theorem run_targets_configured_lights (st : St W) :
  exists tr,
    log (snd (run_simulation_with TRAFFIC_LIGHTS phases budget st)) = log st ++ tr /\
    forallb well_targeted tr = true.
Proof.
  destruct (run_simulation_with_suite TRAFFIC_LIGHTS phases budget st) as (r & _ & Hlog).
  assert (Hsuite : emits (try_suite TRAFFIC_LIGHTS phases budget)
                         (fun tr => forallb well_targeted tr = true)).
  { pose proof (stretchwise_forallb well_targeted) as HP. unfold try_suite.
    apply emits_bind; [exact HP | apply emits_invoke; reflexivity | intros _].
    apply emits_bind; [exact HP | apply emits_invoke; reflexivity | intros all_tls].
    apply (emits_bind_post _ _ _
             (Forall (fun tl_id => dict_mem TRAFFIC_LIGHTS tl_id = true))); [exact HP | | |].
    - apply take_control_targets, keys_configured.
    - intros st0 l st1 Hres. apply take_control_result in Hres. rewrite Hres.
      apply present_lights_Forall, keys_configured.
    - intros existing_tls Hconf. destruct existing_tls as [|tl_id rest] eqn:Hex.
      + apply emits_invoke. reflexivity.
      + rewrite <- Hex in *. cbv zeta.
        destruct (controlled_targets existing_tls (mkLoopState 0 0 0)
                    (Z.to_nat (budget - step (mkLoopState 0 0 0))) Hconf) as [Happly Hloop].
        apply emits_bind; [exact HP | apply emits_invoke; reflexivity | intros _].
        apply emits_bind; [exact HP | apply emits_py_index; reflexivity | intros cpd].
        apply emits_bind; [exact HP | apply Happly | intros _].
        apply emits_bind; [exact HP | exact Hloop | intros _].
        apply emits_ret. reflexivity. }
  destruct (Hsuite st) as (tr & Hlog1 & Htr).
  exists (tr ++ [(Cclose, r)]). split.
  - rewrite Hlog, Hlog1, <- app_assoc. reflexivity.
  - rewrite forallb_app, Htr. reflexivity.
Qed.

(** X14: in every run the simulator makes a step before the first
    state is pushed; a run that makes no step pushes no state. *)
Theorem run_steps_before_pushing (lights : list (string * Z)) (st : St W) :
  exists tr,
    log (snd (run_simulation_with lights phases budget st)) = log st ++ tr /\
    step_first false tr = true.
Proof.
  destruct (run_simulation_with_suite lights phases budget st) as (r & _ & Hlog).
  assert (Hquiet : stretchwise (fun tr => forallb (fun ev => negb (is_push ev)) tr = true))
    by apply stretchwise_forallb.
  assert (Hseq : forall (A B : Type) (m : M W A) (k : A -> M W B),
             emits m (fun tr => forallb (fun ev => negb (is_push ev)) tr = true) ->
             (forall a, emits (k a) (fun tr => step_first false tr = true)) ->
             emits (bind m k) (fun tr => step_first false tr = true)).
  { intros A B m k Hm Hk.
    eapply emits_weaken; [|apply (emits_seq m k _ _ eq_refl Hm Hk)].
    intros tr (tr1 & tr2 & -> & H1 & H2). apply step_first_app; assumption. }
  assert (Hsuite : emits (try_suite lights phases budget)
                         (fun tr => step_first false tr = true)).
  { unfold try_suite.
    apply Hseq; [apply emits_invoke; reflexivity | intros _].
    apply Hseq; [apply emits_invoke; reflexivity | intros all_tls].
    apply Hseq.
    - generalize (@nil string) as acc. generalize (dict_keys lights) as keys.
      induction keys as [|tl_id keys IH]; intros acc; simpl.
      + apply emits_ret. reflexivity.
      + destruct (existsb (String.eqb tl_id) all_tls); [|apply IH].
        apply emits_bind; [exact Hquiet | apply emits_invoke; reflexivity |].
        intros _. apply IH.
    - intros existing_tls. destruct existing_tls as [|tl_id rest] eqn:Hex.
      + apply emits_invoke. reflexivity.
      + rewrite <- Hex. cbv zeta.
        eapply emits_weaken;
          [|apply (emits_seq _ _ (fun tr => exists r0, tr = [(CsimulationStep, r0)])
                     (fun _ => True) I)].
        * intros tr (tr1 & tr2 & -> & (r0 & ->) & _). simpl. apply step_first_seen.
        * apply emits_invoke. intros r0. exists r0. reflexivity.
        * intros _.
          apply emits_bind; [apply stretchwise_True | apply emits_py_index; exact I |].
          intros cpd.
          apply emits_bind; [apply stretchwise_True | |intros _].
          { eapply emits_weaken; [|apply apply_phase_pushes]. auto. }
          apply emits_bind; [apply stretchwise_True | apply main_loop_log |intros _].
          apply emits_ret. exact I. }
  destruct (Hsuite st) as (tr & Hlog1 & Htr).
  exists (tr ++ [(Cclose, r)]). split.
  - rewrite Hlog, Hlog1, <- app_assoc. reflexivity.
  - apply step_first_snoc; [reflexivity | exact Htr].
Qed.

End WholeRun.

(** ** After a failure *)

Lemma smooth_only_close (tr : list event) :
  forallb (fun ev => negb (abrupt ev)) tr = true -> only_close_after_failure tr = true.
Proof.
  induction tr as [|ev tr IH]; simpl; [reflexivity|].
  intros Hall. apply andb_prop in Hall as [Hev Hrest].
  destruct (abrupt ev); [discriminate Hev|]. simpl. apply IH, Hrest.
Qed.

Lemma only_close_app (tr0 rest : list event) :
  forallb (fun ev => negb (abrupt ev)) tr0 = true ->
  only_close_after_failure rest = true ->
  only_close_after_failure (tr0 ++ rest) = true.
Proof.
  intros Hall Hrest. induction tr0 as [|ev tr0 IH]; simpl in *; [exact Hrest|].
  apply andb_prop in Hall as [Hev Hall].
  destruct (abrupt ev); [discriminate Hev|]. simpl. apply IH, Hall.
Qed.

Section FailureFacts.
Context {W : Type} `{Traci W}.
Variable lights : list (string * Z).
Variable phases : list Phase.
Variable budget : Z.

Lemma halts_ret {A : Type} (a : A) : halts_at_failure (ret (W:=W) a).
Proof. intros st. exists []. simpl. rewrite app_nil_r. auto. Qed.

Lemma halts_raise {A : Type} (e : exn) : halts_at_failure (raise (W:=W) (A:=A) e).
Proof. intros st. exists []. simpl. rewrite app_nil_r. auto. Qed.

Lemma halts_invoke {A : Type} (c : call) (enc : A -> reply) (op : W -> outcome A * W) :
  (forall a, abrupt (c, enc a) = false) -> halts_at_failure (invoke c enc op).
Proof.
  intros Henc st. unfold invoke. destruct (op (world st)) as [[a|e] w']; cbn [fst snd log].
  - eexists. split; [reflexivity|]. left. cbn [forallb]. rewrite Henc. reflexivity.
  - eexists. split; [reflexivity|]. right. exists [], (c, Rraised e), e. auto.
Qed.

Lemma halts_emits {A : Type} (m : M W A) :
  emits m (fun tr => forallb (fun ev => negb (abrupt ev)) tr = true) -> halts_at_failure m.
Proof.
  intros Hm st. destruct (Hm st) as (tr & Hlog & Htr). exists tr. auto.
Qed.

Lemma halts_bind {A B : Type} (m : M W A) (k : A -> M W B) :
  halts_at_failure m -> (forall a, halts_at_failure (k a)) -> halts_at_failure (bind m k).
Proof.
  intros Hm Hk st. unfold bind.
  destruct (Hm st) as (tr1 & Hlog1 & Hcase1).
  destruct (m st) as [[a|e] st1]; cbn [fst snd] in *.
  - destruct Hcase1 as [Hall1|(tr0 & ev & e & _ & _ & Hraise)]; [|discriminate Hraise].
    destruct (Hk a st1) as (tr2 & Hlog2 & Hcase2).
    exists (tr1 ++ tr2). split; [rewrite Hlog2, Hlog1, app_assoc; reflexivity|].
    destruct Hcase2 as [Hall2|(tr0 & ev & e & -> & Hall0 & Hraise)].
    + left. rewrite forallb_app, Hall1, Hall2. reflexivity.
    + right. exists (tr1 ++ tr0), ev, e. rewrite app_assoc, forallb_app, Hall1, Hall0. auto.
  - exists tr1. split; [exact Hlog1|].
    destruct Hcase1 as [Hall1|(tr0 & ev & e' & -> & Hall0 & _)]; [left; exact Hall1|].
    right. exists tr0, ev, e. auto.
Qed.

Lemma halts_for_each {A : Type} (l : list A) (body : A -> M W unit) :
  (forall x, halts_at_failure (body x)) -> halts_at_failure (for_each l body).
Proof.
  intros Hbody. induction l as [|x l IH]; simpl; [apply halts_ret|].
  apply halts_bind; auto.
Qed.

Lemma halts_py_index {A : Type} (l : list A) (i : Z) : halts_at_failure (py_index (W:=W) l i).
Proof.
  unfold py_index. destruct (py_lookup l i); [apply halts_ret | apply halts_raise].
Qed.

Lemma halts_apply_phase (existing_tls : list string) (cpd : Phase) :
  halts_at_failure (apply_phase lights existing_tls cpd).
Proof.
  unfold apply_phase. apply halts_for_each. intros tl_id.
  destruct (patterns cpd !! tl_id) as [[|[state d] pattern]|]; try apply halts_ret.
  apply halts_invoke. reflexivity.
Qed.

Lemma halts_loop_body (existing_tls : list string) (ls : LoopState) :
  halts_at_failure (loop_body lights phases existing_tls ls).
Proof.
  unfold loop_body. cbv zeta.
  apply halts_bind; [apply halts_invoke; reflexivity | intros _].
  apply halts_bind; [apply halts_py_index | intros cpd].
  apply halts_bind.
  - destruct (_ >=? _); [|apply halts_ret].
    apply halts_bind; [|intros m].
    { unfold py_mod. destruct (_ =? 0); [apply halts_raise | apply halts_ret]. }
    apply halts_bind; [apply halts_py_index | intros cpd'].
    apply halts_bind; [apply halts_apply_phase | intros _; apply halts_ret].
  - intros [[cp pst] cpd'].
    apply halts_bind; [|intros _].
    { unfold update_lights. apply halts_for_each. intros tl_id.
      destruct (patterns cpd' !! tl_id) as [pattern|]; [|apply halts_ret].
      generalize (step ls - phase_start_time ls) as e.
      induction pattern as [|[state d] pattern IH]; intros e; simpl; [apply halts_ret|].
      destruct (e <? d); [|apply IH]. cbv zeta.
      apply halts_bind; [apply halts_invoke; reflexivity | intros current_state].
      destruct (negb _); [apply halts_invoke; reflexivity | apply halts_ret]. }
    apply halts_bind; [|intros _; apply halts_ret].
    destruct (_ =? 0); [|apply halts_ret].
    apply halts_emits. unfold status_update.
    apply emits_for_each; [apply stretchwise_forallb|]. intros tl_id.
    apply emits_try_except; [apply stretchwise_forallb | |intros e; apply emits_ret; reflexivity].
    apply emits_bind; [apply stretchwise_forallb | apply emits_invoke; reflexivity |].
    intros _. apply emits_ret. reflexivity.
Qed.

Lemma halts_main_loop (fuel : nat) (existing_tls : list string) (ls : LoopState) :
  halts_at_failure (main_loop lights phases budget fuel existing_tls ls).
Proof.
  revert ls. induction fuel as [|fuel IH]; intros ls; simpl; [apply halts_ret|].
  destruct (step ls <? budget); [|apply halts_ret].
  apply halts_bind; [apply halts_invoke; reflexivity | intros remaining].
  destruct (remaining >? 0); [|apply halts_ret].
  apply halts_bind; [apply halts_loop_body | intros ls'; apply IH].
Qed.

Lemma halts_try_suite : halts_at_failure (try_suite lights phases budget).
Proof.
  unfold try_suite.
  apply halts_bind; [apply halts_invoke; reflexivity | intros _].
  apply halts_bind; [apply halts_invoke; reflexivity | intros all_tls].
  apply halts_bind.
  - generalize (@nil string) as acc. generalize (dict_keys lights) as keys.
    induction keys as [|tl_id keys IH]; intros acc; simpl; [apply halts_ret|].
    destruct (existsb (String.eqb tl_id) all_tls); [|apply IH].
    apply halts_bind; [apply halts_invoke; reflexivity | intros _; apply IH].
  - intros existing_tls. destruct existing_tls as [|tl_id rest] eqn:Hex.
    + apply halts_emits. apply emits_invoke. reflexivity.
    + rewrite <- Hex. cbv zeta.
      apply halts_bind; [apply halts_invoke; reflexivity | intros _].
      apply halts_bind; [apply halts_py_index | intros cpd].
      apply halts_bind; [apply halts_apply_phase | intros _].
      apply halts_bind; [apply halts_main_loop | intros _; apply halts_ret].
Qed.

(** X15: once [start], [getIDList], [setProgram], [simulationStep],
    [getMinExpectedNumber] or a push has raised, the run makes no
    further call except [close]: no light is read or set and the
    simulator is not stepped after a failure. *)
Theorem run_stops_at_failure (st : St W) :
  exists tr,
    log (snd (run_simulation_with lights phases budget st)) = log st ++ tr /\
    only_close_after_failure tr = true.
Proof.
  destruct (run_simulation_with_suite lights phases budget st) as (r & _ & Hlog).
  destruct (halts_try_suite st) as (tr & Hlog1 & Hcase).
  exists (tr ++ [(Cclose, r)]). split; [rewrite Hlog, Hlog1, <- app_assoc; reflexivity|].
  destruct Hcase as [Hall|(tr0 & ev & e & -> & Hall0 & _)].
  - apply smooth_only_close. rewrite forallb_app, Hall. reflexivity.
  - rewrite <- app_assoc. apply only_close_app; [exact Hall0|].
    simpl. destruct (abrupt ev); reflexivity.
Qed.

End FailureFacts.

(** ** Pushes, continued *)

Lemma pushes_resolved_any (target : string -> option string) (prev : option event)
    (tr : list event) :
  pushes_resolved target None tr = true -> pushes_resolved target prev tr = true.
Proof.
  destruct tr as [|[c r] rest]; simpl; [reflexivity|].
  destruct c; simpl; auto; discriminate.
Qed.

Lemma pushes_resolved_app (target : string -> option string) (prev : option event)
    (tr1 tr2 : list event) :
  pushes_resolved target prev tr1 = true -> pushes_resolved target None tr2 = true ->
  pushes_resolved target prev (tr1 ++ tr2) = true.
Proof.
  revert prev. induction tr1 as [|ev tr1 IH]; intros prev H1 H2; simpl in *.
  - apply pushes_resolved_any, H2.
  - apply andb_prop in H1 as [Hev Hrest]. rewrite Hev. simpl. auto.
Qed.

Lemma stretchwise_resolved (target : string -> option string) :
  stretchwise (fun tr => pushes_resolved target None tr = true).
Proof.
  split; [reflexivity|]. intros tr1 tr2. apply pushes_resolved_app.
Qed.

Lemma quiet_resolved (target : string -> option string) (prev : option event)
    (tr : list event) :
  forallb is_quiet tr = true -> pushes_resolved target prev tr = true.
Proof.
  revert prev. induction tr as [|[c r] tr IH]; intros prev Hq; simpl in *; [reflexivity|].
  apply andb_prop in Hq as [Hev Hrest]. rewrite IH by exact Hrest.
  destruct c; try reflexivity. discriminate Hev.
Qed.

(** A push that is resolved is guarded. *)
Lemma resolved_guarded (target : string -> option string) (prev : option event)
    (tr : list event) :
  pushes_resolved target prev tr = true -> pushes_guarded prev tr = true.
Proof.
  revert prev. induction tr as [|[c r] tr IH]; intros prev Hres; simpl in *; [reflexivity|].
  apply andb_prop in Hres as [Hev Hrest]. rewrite (IH _ Hrest), andb_true_r.
  destruct c; try reflexivity.
  destruct prev as [[[] []]|]; try discriminate Hev.
  apply andb_prop in Hev as [Hev _]. exact Hev.
Qed.

(** After a read that returned the resolved state of its light there
    is no push. *)
Lemma resolved_no_repeat (target : string -> option string) (prev : option event)
    (pre post : list event) (tl_id current_state : string) (next : event) :
  pushes_resolved target prev
    (pre ++ (CgetRedYellowGreenState tl_id, Rstate current_state) :: next :: post) = true ->
  target tl_id = Some current_state ->
  is_push next = false.
Proof.
  revert prev. induction pre as [|ev pre IH]; intros prev Hres Htarget; simpl in Hres.
  - apply andb_prop in Hres as [Hnext _].
    destruct next as [c r]. destruct c; try reflexivity.
    simpl in Hnext. apply andb_prop in Hnext as [Hguard Hval].
    apply andb_prop in Hguard as [Hsame Hdiff].
    apply String.eqb_eq in Hsame. subst tl_id0. rewrite Htarget in Hval.
    rewrite Hval in Hdiff. discriminate Hdiff.
  - apply andb_prop in Hres as [_ Hrest]. eapply IH; eassumption.
Qed.

Section PushFacts.
Context {W : Type} `{Traci W}.
Variable lights : list (string * Z).
Variable phases : list Phase.

Lemma walk_pattern_resolved (target : string -> option string) (tl_id : string)
    (pattern : list Segment) (elapsed : Z) :
  target tl_id = option_map (validate_state_in lights tl_id) (find_state pattern elapsed) ->
  emits (walk_pattern lights tl_id pattern elapsed)
        (fun tr => pushes_resolved target None tr = true).
Proof.
  intros Htarget st. rewrite walk_pattern_find_state.
  destruct (find_state pattern elapsed) as [state|]; simpl in Htarget.
  - cbv zeta. unfold bind, getRedYellowGreenState, setRedYellowGreenState, invoke.
    destruct (traci_getRedYellowGreenState tl_id (world st)) as [[current_state|e] w1];
      cbn [world log].
    + destruct (String.eqb current_state (validate_state_in lights tl_id state)) eqn:Heq;
        cbn [negb world log].
      * eexists. split; reflexivity.
      * destruct (traci_setRedYellowGreenState tl_id
                    (validate_state_in lights tl_id state) w1) as [r w2]. cbn [snd log].
        eexists. split; [rewrite <- app_assoc; reflexivity|].
        simpl. rewrite String.eqb_refl, Heq, Htarget, String.eqb_refl. reflexivity.
    + eexists. split; reflexivity.
  - exists []. simpl. rewrite app_nil_r. split; reflexivity.
Qed.

Lemma rest_of_body_resolved (existing_tls : list string) (current_phase_data : Phase)
    (time_in_phase : Z) (flag : bool) (ls' : LoopState) :
  emits (update_lights lights existing_tls current_phase_data time_in_phase >>
         (if flag then status_update existing_tls else ret tt) >>
         ret ls')
        (fun tr => pushes_resolved
                     (resolved_state lights (Some current_phase_data) time_in_phase)
                     None tr = true).
Proof.
  pose proof (stretchwise_resolved
                (resolved_state lights (Some current_phase_data) time_in_phase)) as HP.
  apply emits_bind; [exact HP | |intros _].
  { unfold update_lights. apply emits_for_each; [exact HP|]. intros tl_id.
    destruct (patterns current_phase_data !! tl_id) as [pattern|] eqn:Hlook;
      [|apply emits_ret; reflexivity].
    apply walk_pattern_resolved. unfold resolved_state. rewrite Hlook. reflexivity. }
  apply emits_bind; [exact HP | |intros _; apply emits_ret; reflexivity].
  destruct flag; [|apply emits_ret; reflexivity].
  eapply emits_weaken; [intros tr Hq; apply quiet_resolved; exact Hq|].
  unfold status_update. apply emits_for_each; [apply stretchwise_forallb|]. intros tl_id.
  apply emits_try_except; [apply stretchwise_forallb | |intros e; apply emits_ret; reflexivity].
  apply emits_bind; [apply stretchwise_forallb | apply emits_invoke; reflexivity |].
  intros _. apply emits_ret. reflexivity.
Qed.

(** The pushes of "Apply new phase": a prefix of the first-state pushes,
    all of them when no push raises. *)
Lemma apply_phase_log (existing_tls : list string) (current_phase_data : Phase)
    (st : St W) :
  exists tr,
    log (snd (apply_phase lights existing_tls current_phase_data st)) = log st ++ tr /\
    map fst tr `prefix_of` first_pushes lights existing_tls current_phase_data /\
    (fst (apply_phase lights existing_tls current_phase_data st) = Ok tt ->
     map fst tr = first_pushes lights existing_tls current_phase_data).
Proof.
  revert st. unfold apply_phase, first_pushes.
  induction existing_tls as [|tl_id rest IH]; intros st; simpl.
  - exists []. rewrite app_nil_r. split; [reflexivity|]. split; [apply prefix_nil | reflexivity].
  - destruct (patterns current_phase_data !! tl_id) as [[|[state d] pattern]|];
      try (rewrite bind_ret_l; apply IH).
    cbv zeta.
    destruct (invoke (CsetRedYellowGreenState tl_id (validate_state_in lights tl_id state))
                (fun _ : unit => Rnone)
                (traci_setRedYellowGreenState tl_id (validate_state_in lights tl_id state)) st)
      as [[[]|e] st1] eqn:Hpush.
    + assert (Hlog1 : exists r, log st1 = log st ++
                [(CsetRedYellowGreenState tl_id (validate_state_in lights tl_id state), r)]).
      { unfold invoke in Hpush.
        destruct (traci_setRedYellowGreenState tl_id _ (world st)) as [r0 w'].
        injection Hpush as _ <-. eexists. reflexivity. }
      destruct Hlog1 as [r Hlog1].
      change (invoke _ _ _) with
        (setRedYellowGreenState tl_id (validate_state_in lights tl_id state)) in Hpush.
      rewrite (bind_Ok _ _ _ _ _ Hpush).
      destruct (IH st1) as (tr & Hlog & Hpre & Hok).
      eexists (_ :: tr). split; [|split].
      * rewrite Hlog, Hlog1, <- app_assoc. reflexivity.
      * cbn [map fst]. apply prefix_cons, Hpre.
      * intros Hres. cbn [map fst]. rewrite (Hok Hres). reflexivity.
    + assert (Hlog1 : exists r, log st1 = log st ++
                [(CsetRedYellowGreenState tl_id (validate_state_in lights tl_id state), r)]).
      { unfold invoke in Hpush.
        destruct (traci_setRedYellowGreenState tl_id _ (world st)) as [r0 w'].
        injection Hpush as _ <-. eexists. reflexivity. }
      destruct Hlog1 as [r Hlog1].
      change (invoke _ _ _) with
        (setRedYellowGreenState tl_id (validate_state_in lights tl_id state)) in Hpush.
      rewrite (bind_Raise _ _ _ _ _ Hpush).
      eexists [_]. split; [exact Hlog1|]. split.
      * cbn [map fst]. apply prefix_cons, prefix_nil.
      * intros Hres. discriminate Hres.
Qed.

End PushFacts.

Section TickFacts.
Context {W : Type} `{Traci W}.
Variable lights : list (string * Z).
Variable phases : list Phase.

Lemma loop_body_lookup_fails (existing_tls : list string) (ls : LoopState) (st : St W) :
  py_lookup phases (current_phase ls) = None ->
  loop_body lights phases existing_tls ls st =
  (simulationStep >> raise OtherException) st.
Proof.
  intros Hcur. unfold loop_body. cbv zeta. apply bind_ext. intros _ st1.
  unfold py_index. rewrite Hcur, bind_raise_l. reflexivity.
Qed.

Lemma loop_body_no_change (existing_tls : list string) (ls : LoopState)
    (current_phase_data : Phase) (st : St W) :
  py_lookup phases (current_phase ls) = Some current_phase_data ->
  step ls - phase_start_time ls < duration current_phase_data ->
  loop_body lights phases existing_tls ls st =
  (simulationStep >>
   (update_lights lights existing_tls current_phase_data (step ls - phase_start_time ls) >>
    (if step ls mod 30 =? 0 then status_update existing_tls else ret tt) >>
    ret (mkLoopState (current_phase ls) (phase_start_time ls) (step ls + 1)))) st.
Proof.
  intros Hcur Hlt. unfold loop_body. cbv zeta. apply bind_ext. intros _ st1.
  unfold py_index. rewrite Hcur, bind_ret_l.
  destruct (Z.geb_spec (step ls - phase_start_time ls) (duration current_phase_data))
    as [Hge|_]; [lia|].
  rewrite bind_ret_l. reflexivity.
Qed.

(** What follows the simulation step decides the rest of the log. *)
Lemma after_step (K : M W LoopState) (calls : list call)
    (target : string -> option string) (st : St W) :
  (forall st1, exists ta tb,
      log (snd (K st1)) = log st1 ++ ta ++ tb /\
      map fst ta `prefix_of` calls /\
      ((exists ls', fst (K st1) = Ok ls') -> map fst ta = calls) /\
      pushes_resolved target None tb = true) ->
  exists step_ev tr_apply tr_rest,
    log (snd ((simulationStep >> K) st)) = log st ++ step_ev :: tr_apply ++ tr_rest /\
    is_step step_ev = true /\
    map fst tr_apply `prefix_of` calls /\
    ((exists ls', fst ((simulationStep >> K) st) = Ok ls') -> map fst tr_apply = calls) /\
    pushes_resolved target None tr_rest = true.
Proof.
  intros HK. unfold bind, simulationStep, invoke.
  destruct (traci_simulationStep (world st)) as [[[]|e] w1].
  - destruct (HK (mkSt w1 (log st ++ [(CsimulationStep, Rnone)])))
      as (ta & tb & Hlog & Hpre & Hok & Hres).
    exists (CsimulationStep, Rnone), ta, tb.
    split; [rewrite Hlog; cbn [log]; rewrite <- app_assoc; reflexivity|].
    split; [reflexivity|]. auto.
  - exists (CsimulationStep, Rraised e), [], [].
    split; [reflexivity|]. split; [reflexivity|]. split; [apply prefix_nil|].
    split; [|reflexivity].
    intros [ls' Hls']. discriminate Hls'.
Qed.

Lemma loop_body_pushes_core (existing_tls : list string) (ls : LoopState) (st : St W) :
  exists step_ev tr_apply tr_rest,
    log (snd (loop_body lights phases existing_tls ls st))
      = log st ++ step_ev :: tr_apply ++ tr_rest /\
    is_step step_ev = true /\
    map fst tr_apply `prefix_of` entry_pushes lights phases existing_tls ls /\
    ((exists ls', fst (loop_body lights phases existing_tls ls st) = Ok ls') ->
     map fst tr_apply = entry_pushes lights phases existing_tls ls) /\
    pushes_resolved
      (resolved_state lights (phase_in_force phases ls) (step ls - phase_start_time ls))
      None tr_rest = true.
Proof.
  unfold entry_pushes, phase_in_force, phase_changes.
  destruct (py_lookup phases (current_phase ls)) as [current_phase_data|] eqn:Hcur.
  - destruct (Z.geb_spec (step ls - phase_start_time ls) (duration current_phase_data))
      as [Hge|Hlt].
    + (* the phase changes *)
      destruct (py_lookup_elem _ _ _ Hcur) as [_ Hlen].
      destruct (py_lookup_range phases
                  ((current_phase ls + 1) mod Z.of_nat (length phases))
                  (Z.mod_pos_bound _ _ Hlen)) as [next_phase_data Hnext].
      rewrite Hnext.
      rewrite (loop_body_phase_change lights phases existing_tls ls
                 current_phase_data next_phase_data st Hcur ltac:(lia) ltac:(lia) Hnext).
      apply after_step. intros st1.
      destruct (apply_phase_log lights existing_tls next_phase_data st1)
        as (ta & Hlog & Hpre & Hok).
      destruct (apply_phase lights existing_tls next_phase_data st1) as [[[]|e] st2]
        eqn:Happly; cbn [fst snd] in Hlog, Hok;
        [rewrite (bind_Ok _ _ _ _ _ Happly) | rewrite (bind_Raise _ _ _ _ _ Happly)].
      * destruct (rest_of_body_resolved lights existing_tls next_phase_data
                    (step ls - phase_start_time ls) (step ls mod 30 =? 0)
                    (mkLoopState ((current_phase ls + 1) mod Z.of_nat (length phases))
                                 (step ls) (step ls + 1)) st2)
          as (tb & Hlogb & Hres).
        exists ta, tb. split; [rewrite Hlogb, Hlog, <- app_assoc; reflexivity|].
        split; [exact Hpre|]. split; [intros _; apply Hok; reflexivity | exact Hres].
      * exists ta, []. rewrite app_nil_r. split; [exact Hlog|].
        split; [exact Hpre|]. split; [|reflexivity].
        intros [ls' Hls']. discriminate Hls'.
    + (* it does not *)
      rewrite (loop_body_no_change existing_tls ls current_phase_data st Hcur Hlt).
      apply after_step. intros st1.
      destruct (rest_of_body_resolved lights existing_tls current_phase_data
                  (step ls - phase_start_time ls) (step ls mod 30 =? 0)
                  (mkLoopState (current_phase ls) (phase_start_time ls) (step ls + 1)) st1)
        as (tb & Hlogb & Hres).
      exists [], tb. split; [exact Hlogb|]. split; [apply prefix_nil|].
      split; [reflexivity | exact Hres].
  - rewrite (loop_body_lookup_fails existing_tls ls st Hcur).
    apply after_step. intros st1. exists [], []. simpl. rewrite app_nil_r.
    split; [reflexivity|]. split; [apply prefix_nil|]. split; reflexivity.
Qed.

End TickFacts.

(** C4, amended: a run of the loop body logs the simulation step, then
    the pushes of "Apply new phase", then the update and the status
    reads.  The pushes of "Apply new phase" are the validated first
    states of the new phase, pushed without a read, and there are none
    on a tick on which the phase does not change.  Every other push
    pushes the resolved, validated state of its light and comes
    directly after a read of that light that returned another state;
    so after a read that returned the resolved, validated state no
    push follows. *)
Theorem pushes_in_loop_body {W : Type} `{Traci W} (lights : list (string * Z))
    (phases : list Phase) (existing_tls : list string) (ls : LoopState) (st : St W) :
  exists step_ev tr_apply tr_rest,
    log (snd (loop_body lights phases existing_tls ls st))
      = log st ++ step_ev :: tr_apply ++ tr_rest /\
    is_step step_ev = true /\
    forallb is_push tr_apply = true /\
    map fst tr_apply `prefix_of` entry_pushes lights phases existing_tls ls /\
    ((exists ls', fst (loop_body lights phases existing_tls ls st) = Ok ls') ->
     map fst tr_apply = entry_pushes lights phases existing_tls ls) /\
    pushes_resolved
      (resolved_state lights (phase_in_force phases ls) (step ls - phase_start_time ls))
      None tr_rest = true /\
    pushes_guarded None tr_rest = true /\
    (forall pre post tl_id current_state next,
       tr_rest = pre ++ (CgetRedYellowGreenState tl_id, Rstate current_state) :: next :: post ->
       resolved_state lights (phase_in_force phases ls) (step ls - phase_start_time ls) tl_id
         = Some current_state ->
       is_push next = false) /\
    ((forall current_phase_data,
        py_lookup phases (current_phase ls) = Some current_phase_data ->
        step ls - phase_start_time ls < duration current_phase_data) ->
     tr_apply = [] /\
     pushes_resolved
       (resolved_state lights (phase_in_force phases ls) (step ls - phase_start_time ls))
       None (step_ev :: tr_rest) = true /\
     pushes_guarded None (step_ev :: tr_rest) = true).
Proof.
  destruct (loop_body_pushes_core lights phases existing_tls ls st)
    as (ev & ta & tb & Hlog & Hev & Hpre & Hok & Hres).
  assert (Hnone : (forall current_phase_data,
                      py_lookup phases (current_phase ls) = Some current_phase_data ->
                      step ls - phase_start_time ls < duration current_phase_data) ->
                  ta = []).
  { intros Hno. unfold entry_pushes, phase_changes in Hpre.
    destruct (py_lookup phases (current_phase ls)) as [cpd|].
    - specialize (Hno cpd eq_refl).
      destruct (Z.geb_spec (step ls - phase_start_time ls) (duration cpd)) as [Hge|_]; [lia|].
      apply prefix_nil_inv in Hpre. destruct ta; [reflexivity | discriminate Hpre].
    - apply prefix_nil_inv in Hpre. destruct ta; [reflexivity | discriminate Hpre]. }
  assert (Hpush : forallb is_push ta = true).
  { destruct Hpre as [k Hk]. clear - Hk. unfold entry_pushes in Hk.
    assert (Hall : Forall (fun c => match c with
                                    | CsetRedYellowGreenState _ _ => True
                                    | _ => False
                                    end) (map fst ta)).
    { apply (Forall_app _ (map fst ta) k). rewrite <- Hk. clear Hk.
      destruct (phase_changes phases ls); [|constructor].
      destruct (phase_in_force phases ls) as [next|]; [|constructor].
      unfold first_pushes. induction existing_tls as [|tl_id rest IH]; simpl; [constructor|].
      destruct (patterns next !! tl_id) as [[|[state d] pattern]|]; simpl; try exact IH.
      constructor; [exact I | exact IH]. }
    clear Hk. induction ta as [|[c r] ta IH]; simpl in *; [reflexivity|].
    inversion Hall as [|c0 l Hc Hl]; subst. rewrite (IH Hl), andb_true_r.
    unfold is_push. simpl. destruct c; try contradiction. reflexivity. }
  exists ev, ta, tb.
  split; [exact Hlog|]. split; [exact Hev|]. split; [exact Hpush|].
  split; [exact Hpre|]. split; [exact Hok|]. split; [exact Hres|].
  split; [apply resolved_guarded with (1 := Hres)|].
  split.
  - intros pre post tl_id current_state next Htr Htarget.
    rewrite Htr in Hres. eapply resolved_no_repeat; eassumption.
  - intros Hno. split; [apply Hnone, Hno|].
    assert (Hstep : pushes_resolved
              (resolved_state lights (phase_in_force phases ls)
                 (step ls - phase_start_time ls)) None (ev :: tb) = true).
    { destruct ev as [c r]. destruct c; try discriminate Hev.
      simpl. apply pushes_resolved_any, Hres. }
    split; [exact Hstep | apply resolved_guarded with (1 := Hstep)].
Qed.

(** The pushes of "Apply new phase" on the tick that ends the first
    phase, and the resolved state of T1 on the tick before. *)
Example entry_pushes_at_step_60 :
  entry_pushes TRAFFIC_LIGHTS PHASES all_ids (mkLoopState 0 0 60) =
    [CsetRedYellowGreenState "T1" "rrr"; CsetRedYellowGreenState "T2" "gg";
     CsetRedYellowGreenState "T3" "rrr"; CsetRedYellowGreenState "T4" "rr";
     CsetRedYellowGreenState "T5" "g"] /\
  entry_pushes TRAFFIC_LIGHTS PHASES all_ids (mkLoopState 0 0 59) = [] /\
  resolved_state TRAFFIC_LIGHTS (phase_in_force PHASES (mkLoopState 0 0 59)) 59 "T1"
    = Some "yyy".
Proof. vm_compute. repeat split; reflexivity. Qed.
